(** * The streaming response bridge of the external-AI chat participant

    A shallow embedding of [streamAIResponse] (the extension source of the
    external-ai-chat example): the response check, the read loop over the
    body reader, the per-chunk line handling, the sentinel, the JSON delta
    extraction and the two [try] blocks.

    Platform functions used by the source ([TextDecoder.decode],
    [String.prototype.split], [trim], [startsWith], [slice], [JSON.parse],
    optional chaining, [ToBoolean]) are modelled after their ECMAScript /
    WHATWG definitions, on strings of UTF-16 code units. *)

From Stdlib Require Import List Bool Arith NArith ZArith Lia.
From Stdlib Require Import Strings.Ascii Strings.String Strings.Byte.
From Stdlib Require Import DecimalString.
Import ListNotations.

Set Warnings "-register-all".
Local Open Scope N_scope.

(* ------------------------------------------------------------------ *)
(** ** JavaScript strings *)

(** A JavaScript string is a sequence of UTF-16 code units. *)
Definition jsstring := list N.

(** String literals of the source, all ASCII. *)
Definition js (s : string) : jsstring :=
  map N_of_ascii (list_ascii_of_string s).

Definition LF : N := 10.

Fixpoint jsstring_eqb (a b : jsstring) : bool :=
  match a, b with
  | [], [] => true
  | x :: a', y :: b' => (x =? y) && jsstring_eqb a' b'
  | _, _ => false
  end.

(** [s.startsWith(p)] *)
Fixpoint startsWith (s p : jsstring) : bool :=
  match p, s with
  | [], _ => true
  | x :: p', y :: s' => (x =? y) && startsWith s' p'
  | _ :: _, [] => false
  end.

(** [s.slice(n)] for a non-negative [n] *)
Definition slice (n : nat) (s : jsstring) : jsstring := skipn n s.

(** [s.split(sep)] for a separator of one code unit: the segments between
    the occurrences of [sep]; the empty string splits into one empty
    segment. *)
Fixpoint split (sep : N) (s : jsstring) : list jsstring :=
  match s with
  | [] => [[]]
  | c :: r =>
      if c =? sep then [] :: split sep r
      else match split sep r with
           | seg :: segs => (c :: seg) :: segs
           | [] => [[c]]
           end
  end.

(** WhiteSpace and LineTerminator code points, the ones [trim] strips. *)
Definition isStrWhiteSpace (c : N) : bool :=
  (c =? 0x9) || (c =? 0xA) || (c =? 0xB) || (c =? 0xC) || (c =? 0xD) ||
  (c =? 0x20) || (c =? 0xA0) || (c =? 0x1680) ||
  ((0x2000 <=? c) && (c <=? 0x200A)) ||
  (c =? 0x2028) || (c =? 0x2029) || (c =? 0x202F) || (c =? 0x205F) ||
  (c =? 0x3000) || (c =? 0xFEFF).

Fixpoint trimStart (s : jsstring) : jsstring :=
  match s with
  | [] => []
  | c :: r => if isStrWhiteSpace c then trimStart r else s
  end.

Definition trimEnd (s : jsstring) : jsstring := rev (trimStart (rev s)).

(** [s.trim()] *)
Definition trim (s : jsstring) : jsstring := trimEnd (trimStart s).

(** [ToBoolean] of a string: the empty string is the only falsy one. *)
Definition truthyString (s : jsstring) : bool :=
  match s with [] => false | _ :: _ => true end.

(* ------------------------------------------------------------------ *)
(** ** [new TextDecoder().decode(value)]

    The WHATWG UTF-8 decoder in its default mode: malformed input is
    replaced by U+FFFD and one leading byte order mark is removed. A fresh
    decoder is made for every chunk, so no decoder state survives a
    chunk. The masks and shifts of the standard are written as the
    arithmetic they amount to on the byte ranges involved. *)

Inductive utf8_state :=
| Utf8Start
| Utf8Pending (cp : N) (needed : nat) (lower upper : N).

Definition REPLACEMENT : N := 0xFFFD.
Definition BOM : N := 0xFEFF.

Definition utf8_lead (b : N) : utf8_state * list N :=
  if b <=? 0x7F then (Utf8Start, [b])
  else if (0xC2 <=? b) && (b <=? 0xDF) then
    (Utf8Pending (b - 0xC0) 1 0x80 0xBF, [])
  else if (0xE0 <=? b) && (b <=? 0xEF) then
    (Utf8Pending (b - 0xE0) 2
       (if b =? 0xE0 then 0xA0 else 0x80)
       (if b =? 0xED then 0x9F else 0xBF), [])
  else if (0xF0 <=? b) && (b <=? 0xF4) then
    (Utf8Pending (b - 0xF0) 3
       (if b =? 0xF0 then 0x90 else 0x80)
       (if b =? 0xF4 then 0x8F else 0xBF), [])
  else (Utf8Start, [REPLACEMENT]).

Definition utf8_step (st : utf8_state) (b : N) : utf8_state * list N :=
  match st with
  | Utf8Start => utf8_lead b
  | Utf8Pending cp needed lower upper =>
      if (lower <=? b) && (b <=? upper) then
        let cp' := cp * 64 + (b - 0x80) in
        match needed with
        | S (S n) => (Utf8Pending cp' (S n) 0x80 0xBF, [])
        | _ => (Utf8Start, [cp'])
        end
      else
        (* the byte is put back and read again from the start state *)
        let (st', out) := utf8_lead b in (st', REPLACEMENT :: out)
  end.

Fixpoint utf8_run (st : utf8_state) (bytes : list N) : list N :=
  match bytes with
  | [] => match st with Utf8Start => [] | Utf8Pending _ _ _ _ => [REPLACEMENT] end
  | b :: r => let (st', out) := utf8_step st b in out ++ utf8_run st' r
  end.

Definition stripBOM (cps : list N) : list N :=
  match cps with
  | c :: r => if c =? BOM then r else cps
  | [] => []
  end.

(** Code points to UTF-16 code units. *)
Definition utf16_units (cp : N) : list N :=
  if cp <? 0x10000 then [cp]
  else [0xD800 + (cp - 0x10000) / 0x400; 0xDC00 + (cp - 0x10000) mod 0x400].

Definition chunk := list byte.

Definition codePoints (value : chunk) : list N :=
  utf8_run Utf8Start (map Byte.to_N value).

Definition decode (value : chunk) : jsstring :=
  flat_map utf16_units (stripBOM (codePoints value)).

(** The UTF-8 bytes of an ASCII literal, for writing chunks down. *)
Definition bytes (s : string) : chunk := list_byte_of_string s.

(* ------------------------------------------------------------------ *)
(** ** JavaScript values and [JSON.parse] *)

(** The number a JSON numeric literal denotes, kept exactly:
    [(-1)^negative * mantissa * 10^exponent]. *)
Record number := mkNumber { negative : bool; mantissa : N; exponent : Z }.

Inductive value :=
| VUndefined
| VNull
| VBool (b : bool)
| VNumber (n : number)
| VString (s : jsstring)
| VArray (elements : list value)
| VObject (members : list (jsstring * value)).

Definition ch (a : ascii) : N := N_of_ascii a.
Definition QUOTE : N := 34.
Definition BACKSLASH : N := 92.

(** JSON white space: tab, line feed, carriage return, space. *)
Definition isJSONWhiteSpace (c : N) : bool :=
  (c =? 0x9) || (c =? 0xA) || (c =? 0xD) || (c =? 0x20).

Fixpoint skip_ws (s : jsstring) : jsstring :=
  match s with
  | c :: r => if isJSONWhiteSpace c then skip_ws r else s
  | [] => []
  end.

Definition digit_of (c : N) : option N :=
  if (48 <=? c) && (c <=? 57) then Some (c - 48) else None.

Definition hex_of (c : N) : option N :=
  if (48 <=? c) && (c <=? 57) then Some (c - 48)
  else if (65 <=? c) && (c <=? 70) then Some (c - 55)
  else if (97 <=? c) && (c <=? 102) then Some (c - 87)
  else None.

Definition escape_of (c : N) : option N :=
  if c =? QUOTE then Some QUOTE
  else if c =? BACKSLASH then Some BACKSLASH
  else if c =? ch "/" then Some (ch "/")
  else if c =? ch "b" then Some 8
  else if c =? ch "f" then Some 12
  else if c =? ch "n" then Some 10
  else if c =? ch "r" then Some 13
  else if c =? ch "t" then Some 9
  else None.

(** The characters of a JSON string after its opening quote, up to and
    including the closing one. [acc] holds the code units read so far,
    last first. *)
Fixpoint parse_chars (s acc : jsstring) : option (jsstring * jsstring) :=
  match s with
  | [] => None
  | c :: r =>
      if c =? QUOTE then Some (rev acc, r)
      else if c =? BACKSLASH then
        match r with
        | [] => None
        | e :: r1 =>
            if e =? ch "u" then
              match r1 with
              | h1 :: h2 :: h3 :: h4 :: r2 =>
                  match hex_of h1, hex_of h2, hex_of h3, hex_of h4 with
                  | Some a, Some b, Some c', Some d =>
                      parse_chars r2 (((a * 16 + b) * 16 + c') * 16 + d :: acc)
                  | _, _, _, _ => None
                  end
              | _ => None
              end
            else
              match escape_of e with
              | Some x => parse_chars r1 (x :: acc)
              | None => None
              end
        end
      else if c <? 0x20 then None
      else parse_chars r (c :: acc)
  end.

(** A run of decimal digits: their value appended to [acc], how many were
    read, and the rest. *)
Fixpoint parse_digits (s : jsstring) (acc : N) (count : nat)
  : N * nat * jsstring :=
  match s with
  | c :: r =>
      match digit_of c with
      | Some d => parse_digits r (acc * 10 + d) (S count)
      | None => (acc, count, s)
      end
  | [] => (acc, count, s)
  end.

(** The integer part: a single 0, or a non-zero digit and more digits. *)
Definition parse_int (s : jsstring) : option (N * jsstring) :=
  match s with
  | c :: r =>
      match digit_of c with
      | Some 0 => Some (0, r)
      | Some d => let '(m, _, r') := parse_digits r d 0 in Some (m, r')
      | None => None
      end
  | [] => None
  end.

(** The optional fraction: the mantissa extended by the fraction digits
    and the number of those digits. *)
Definition parse_frac (m : N) (s : jsstring) : option (N * nat * jsstring) :=
  match s with
  | c :: r =>
      if c =? ch "." then
        match parse_digits r m 0 with
        | (_, O, _) => None
        | (m', k, r') => Some (m', k, r')
        end
      else Some (m, O, s)
  | [] => Some (m, O, s)
  end.

(** The optional exponent part. *)
Definition parse_exp (s : jsstring) : option (Z * jsstring) :=
  match s with
  | c :: r =>
      if (c =? ch "e") || (c =? ch "E") then
        let '(sign, r1) :=
          match r with
          | x :: r' =>
              if x =? ch "+" then (1%Z, r')
              else if x =? ch "-" then ((-1)%Z, r')
              else (1%Z, r)
          | [] => (1%Z, r)
          end in
        match parse_digits r1 0 0 with
        | (_, O, _) => None
        | (e, _, r2) => Some ((sign * Z.of_N e)%Z, r2)
        end
      else Some (0%Z, s)
  | [] => Some (0%Z, s)
  end.

Definition parse_number (s : jsstring) : option (number * jsstring) :=
  let '(neg, s1) :=
    match s with
    | c :: r => if c =? ch "-" then (true, r) else (false, s)
    | [] => (false, s)
    end in
  match parse_int s1 with
  | None => None
  | Some (m, s2) =>
      match parse_frac m s2 with
      | None => None
      | Some (m', k, s3) =>
          match parse_exp s3 with
          | None => None
          | Some (e, s4) => Some (mkNumber neg m' (e - Z.of_nat k), s4)
          end
      end
  end.

(** A keyword: the rest of the input once [word] is read off it. *)
Definition expect (word s : jsstring) : option jsstring :=
  if startsWith s word then Some (skipn (List.length word) s) else None.

Inductive presult (A : Type) :=
| POk (a : A) (rest : jsstring)
| PSyntax
| POutOfFuel.
Arguments POk {A} a rest.
Arguments PSyntax {A}.
Arguments POutOfFuel {A}.

(** Recursive descent on the JSON grammar. Every call for a nested value,
    element list or member list spends one unit of fuel. *)
Fixpoint parse_value (fuel : nat) (s : jsstring) {struct fuel} : presult value :=
  match fuel with
  | O => POutOfFuel
  | S f =>
      match skip_ws s with
      | [] => PSyntax
      | c :: r =>
          if c =? ch "{" then
            match skip_ws r with
            | x :: r' =>
                if x =? ch "}" then POk (VObject []) r'
                else parse_members f (x :: r') []
            | [] => PSyntax
            end
          else if c =? ch "[" then
            match skip_ws r with
            | x :: r' =>
                if x =? ch "]" then POk (VArray []) r'
                else parse_elements f (x :: r') []
            | [] => PSyntax
            end
          else if c =? QUOTE then
            match parse_chars r [] with
            | Some (str, r') => POk (VString str) r'
            | None => PSyntax
            end
          else if c =? ch "t" then
            match expect (js "true") (c :: r) with
            | Some r' => POk (VBool true) r'
            | None => PSyntax
            end
          else if c =? ch "f" then
            match expect (js "false") (c :: r) with
            | Some r' => POk (VBool false) r'
            | None => PSyntax
            end
          else if c =? ch "n" then
            match expect (js "null") (c :: r) with
            | Some r' => POk VNull r'
            | None => PSyntax
            end
          else
            match parse_number (c :: r) with
            | Some (n, r') => POk (VNumber n) r'
            | None => PSyntax
            end
      end
  end

with parse_elements (fuel : nat) (s : jsstring) (acc : list value)
       {struct fuel} : presult value :=
  match fuel with
  | O => POutOfFuel
  | S f =>
      match parse_value f s with
      | POk v r =>
          match skip_ws r with
          | x :: r' =>
              if x =? ch "," then parse_elements f r' (v :: acc)
              else if x =? ch "]" then POk (VArray (rev (v :: acc))) r'
              else PSyntax
          | [] => PSyntax
          end
      | PSyntax => PSyntax
      | POutOfFuel => POutOfFuel
      end
  end

with parse_members (fuel : nat) (s : jsstring) (acc : list (jsstring * value))
       {struct fuel} : presult value :=
  match fuel with
  | O => POutOfFuel
  | S f =>
      match skip_ws s with
      | q :: r =>
          if q =? QUOTE then
            match parse_chars r [] with
            | Some (key, r1) =>
                match skip_ws r1 with
                | colon :: r2 =>
                    if colon =? ch ":" then
                      match parse_value f r2 with
                      | POk v r3 =>
                          match skip_ws r3 with
                          | x :: r4 =>
                              if x =? ch "," then
                                parse_members f r4 ((key, v) :: acc)
                              else if x =? ch "}" then
                                POk (VObject (rev ((key, v) :: acc))) r4
                              else PSyntax
                          | [] => PSyntax
                          end
                      | PSyntax => PSyntax
                      | POutOfFuel => POutOfFuel
                      end
                    else PSyntax
                | [] => PSyntax
                end
            | None => PSyntax
            end
          else PSyntax
      | [] => PSyntax
      end
  end.

Definition parse_fuel (text : jsstring) : nat := 2 * List.length text + 2.

(** [JSON.parse(text)]: one value, white space around it, and nothing
    else; [None] stands for the SyntaxError it throws. *)
Definition JSON_parse (text : jsstring) : option value :=
  match parse_value (parse_fuel text) text with
  | POk v rest => match skip_ws rest with [] => Some v | _ :: _ => None end
  | PSyntax | POutOfFuel => None
  end.

(* ------------------------------------------------------------------ *)
(** ** Property access and truthiness *)

Definition nullish (v : value) : bool :=
  match v with
  | VUndefined | VNull => true
  | _ => false
  end.

(** The own property [name] of an object [JSON.parse] built: of repeated
    keys the last one counts. *)
Fixpoint lookup (name : jsstring) (members : list (jsstring * value)) : value :=
  match members with
  | [] => VUndefined
  | (k, v) :: rest =>
      match lookup name rest with
      | VUndefined => if jsstring_eqb k name then v else VUndefined
      | found => found
      end
  end.

(** [base.name] on a base that is neither null nor undefined, for the
    names the source reads (choices, delta, content): only an object can
    have them, no built-in prototype defines them. *)
Definition getMember (name : string) (base : value) : value :=
  match base with
  | VObject members => lookup (js name) members
  | _ => VUndefined
  end.

(** [base[0]] on a base that is neither null nor undefined. *)
Definition getFirst (base : value) : value :=
  match base with
  | VArray (x :: _) => x
  | VString (c :: _) => VString [c]
  | VObject members => lookup (js "0") members
  | _ => VUndefined
  end.

(** What the inner [try] block can throw. *)
Inductive parse_exn := SyntaxError | TypeError.

(** [parsed.choices?.[0]?.delta?.content]: the first access is not
    optional and throws on null; each later link ends the whole chain with
    undefined when its base is null or undefined. *)
Definition contentOf (parsed : value) : parse_exn + value :=
  if nullish parsed then inl TypeError
  else
    let choices := getMember "choices" parsed in
    if nullish choices then inr VUndefined
    else
      let first := getFirst choices in
      if nullish first then inr VUndefined
      else
        let delta := getMember "delta" first in
        if nullish delta then inr VUndefined
        else inr (getMember "content" delta).

(** Whether the double nearest to a literal is zero: the literal is zero,
    or at most 2^-1075, half the least positive double. *)
Definition roundsToZero (n : number) : bool :=
  (mantissa n =? 0) ||
  match exponent n with
  | Zneg p => mantissa n * 2 ^ 1075 <=? 10 ^ Npos p
  | _ => false
  end.

Definition ToBoolean (v : value) : bool :=
  match v with
  | VUndefined | VNull => false
  | VBool b => b
  | VNumber n => negb (roundsToZero n)
  | VString s => truthyString s
  | VArray _ | VObject _ => true
  end.

(* ------------------------------------------------------------------ *)
(** ** Effects

    A run is the trace of what the function does to its surroundings, in
    order, and the way it completes. *)

Record error := mkError { message : jsstring }.

Inductive event :=
| EvCheck (requested : bool)     (* token.isCancellationRequested read *)
| EvRead                         (* reader.read() awaited *)
| EvMarkdown (content : value)   (* stream.markdown(content) *)
| EvWarn (x : parse_exn)         (* console.warn(..., parseError) *)
| EvReleaseLock.                 (* reader.releaseLock() *)

Inductive completion :=
| Normal
| Return
| Throw (e : error).

Definition M : Type := list event * completion.

Definition skip : M := ([], Normal).
Definition emit (e : event) : M := ([e], Normal).
Definition throw (e : error) : M := ([], Throw e).
Definition returnNow : M := ([], Return).

(** Sequencing: the second statement runs only when the first completes
    normally. *)
Definition seq (m k : M) : M :=
  match m with
  | (t, Normal) => (t ++ fst k, snd k)
  | _ => m
  end.

Notation "m ;; k" := (seq m k) (at level 61, right associativity).

(** [try { m } finally { f }] for a finaliser that completes normally. *)
Definition tryFinally (m f : M) : M :=
  match f with
  | (t', Normal) => (fst m ++ t', snd m)
  | (t', c') => (fst m ++ t', c')
  end.

(** [try { m } catch (error) { h error }] *)
Definition tryCatch (m : M) (h : error -> M) : M :=
  match m with
  | (t, Throw e) => (t ++ fst (h e), snd (h e))
  | _ => m
  end.

(* ------------------------------------------------------------------ *)
(** ** The surroundings: response, body reader, cancellation token *)

(** How the body ends once its chunks are read: closed by the peer
    ([read] resolves with [done]), or failed ([read] rejects). *)
Inductive stream_end :=
| Closed
| Errored (e : error).

Record body_stream := mkBody { chunks : list chunk; ending : stream_end }.

Record response := mkResponse {
  status : N;
  statusText : jsstring;
  body : option body_stream
}.

(** [response.ok]: the status is in the range 200-299. *)
Definition ok (r : response) : bool :=
  (200 <=? status r) && (status r <=? 299).

(** What [await fetch(...)] gives. The request itself (headers, JSON body)
    has no part in how the response is handled and is left out. *)
Inductive fetch_result :=
| Rejected (e : error)
| Resolved (r : response).

(** The token is changed from outside while the function awaits; it is
    seen only through [isCancellationRequested], read at the top of the
    loop. [token n] is what that read gives once [n] chunks have been
    received: a signal raised while the function waits for a chunk shows
    at the test that follows that chunk. *)
Definition token := nat -> bool.

(** [`${n}`] for a natural number. *)
Definition numberToString (n : N) : jsstring :=
  js (NilEmpty.string_of_uint (N.to_uint n)).

(* ------------------------------------------------------------------ *)
(** ** [streamAIResponse] *)

Definition DATA_PREFIX : jsstring := js "data: ".
Definition DONE : jsstring := js "[DONE]".

(** [chunk.split('\n').filter(line => line.trim())] *)
Definition linesOf (text : jsstring) : list jsstring :=
  filter (fun line => truthyString (trim line)) (split LF text).

(** The inner [try] block up to the test of [content]. *)
Definition parseContent (data : jsstring) : parse_exn + value :=
  match JSON_parse data with
  | None => inl SyntaxError
  | Some parsed => contentOf parsed
  end.

(** The body of [for (const line of lines)]. *)
Definition forBody (line : jsstring) : M :=
  if startsWith line DATA_PREFIX then
    let data := slice 6 line in
    if jsstring_eqb data DONE then returnNow
    else
      match parseContent data with
      | inr content =>
          if ToBoolean content then emit (EvMarkdown content) else skip
      | inl parseError => emit (EvWarn parseError)
      end
  else skip.

Fixpoint forLines (lines : list jsstring) : M :=
  match lines with
  | [] => skip
  | line :: rest => forBody line ;; forLines rest
  end.

(** What is done with one value read from the body. *)
Definition onChunk (value : chunk) : M :=
  forLines (linesOf (decode value)).

(** [while (!token.isCancellationRequested) { ... }], with [received]
    chunks read so far and [pending] still to come. *)
Fixpoint whileLoop (tok : token) (received : nat)
    (pending : list chunk) (ending : stream_end) : M :=
  emit (EvCheck (tok received)) ;;
  if tok received then skip
  else
    emit EvRead ;;
    match pending with
    | [] =>
        match ending with
        | Closed => skip
        | Errored e => throw e
        end
    | value :: rest =>
        onChunk value ;; whileLoop tok (S received) rest ending
    end.

(** The block of the outer [try]. *)
Definition tryBlock (fetched : fetch_result) (tok : token) : M :=
  match fetched with
  | Rejected e => throw e
  | Resolved response =>
      if negb (ok response) then
        throw (mkError (js "AI service returned "
                        ++ numberToString (status response)
                        ++ js ": " ++ statusText response))
      else
        match body response with
        | None => throw (mkError (js "No response stream available"))
        | Some reader =>
            tryFinally (whileLoop tok 0 (chunks reader) (ending reader))
                       (emit EvReleaseLock)
        end
  end.

Definition failureNotice (e : error) : value :=
  VString (js "Failed to get response from AI service: " ++ message e).

Definition streamAIResponse (fetched : fetch_result) (tok : token) : M :=
  tryCatch (tryBlock fetched tok)
           (fun error => emit (EvMarkdown (failureNotice error))).

(* ------------------------------------------------------------------ *)
(** ** Observations on a run *)

(** The values handed to [stream.markdown], in order. *)
Fixpoint increments (t : list event) : list value :=
  match t with
  | [] => []
  | EvMarkdown v :: t' => v :: increments t'
  | _ :: t' => increments t'
  end.

Fixpoint reads (t : list event) : nat :=
  match t with
  | [] => 0%nat
  | EvRead :: t' => S (reads t')
  | _ :: t' => reads t'
  end.

Definition threw (c : completion) : bool :=
  match c with
  | Throw _ => true
  | _ => false
  end.

(** The token that is never cancelled. *)
Definition never : token := fun _ => false.

(** What the caller's sink and the caller see of a run: the increments in
    order and the completion. *)
Definition outcome (m : M) : list value * completion :=
  (increments (fst m), snd m).

(** Every read of the trace comes right after a check that found the token
    not cancelled, every such check is followed at once by its read, and
    after a check that found it cancelled nothing is checked or read. *)
Definition isCheckOrRead (e : event) : bool :=
  match e with
  | EvCheck _ | EvRead => true
  | _ => false
  end.

Fixpoint checkedReads (t : list event) : bool :=
  match t with
  | [] => true
  | EvCheck false :: EvRead :: t' => checkedReads t'
  | EvCheck false :: _ => false
  | EvCheck true :: t' => forallb (fun e => negb (isCheckOrRead e)) t'
  | EvRead :: _ => false
  | _ :: t' => checkedReads t'
  end.

(** A frame carrying the sentinel: its payload, the line from its seventh
    code unit on, is the literal [[DONE]]. *)
Definition isSentinelFrame (line : jsstring) : bool :=
  startsWith line DATA_PREFIX && jsstring_eqb (slice 6 line) DONE.

(** Chunk boundaries that fall on line ends: every chunk but the last ends
    with a line feed, and no later chunk opens with a byte order mark. *)
Definition lineTerminated (c : chunk) : bool :=
  match rev c with
  | x0a :: _ => true
  | _ => false
  end.

Definition startsWithBOM (c : chunk) : bool :=
  match c with
  | xef :: xbb :: xbf :: _ => true
  | _ => false
  end.

Fixpoint splitAtLineEnds (cs : list chunk) : bool :=
  match cs with
  | [] => true
  | c :: rest =>
      match rest with
      | [] => true
      | c' :: _ =>
          lineTerminated c && negb (startsWithBOM c') && splitAtLineEnds rest
      end
  end.

(** The path [choices[0].delta.content] leads to a value in [parsed]. *)
Inductive hasContentPath (parsed : value) : Prop :=
| ContentAt (choices first delta : value) :
    getMember "choices" parsed = choices -> nullish choices = false ->
    getFirst choices = first -> nullish first = false ->
    getMember "delta" first = delta -> nullish delta = false ->
    getMember "content" delta <> VUndefined ->
    hasContentPath parsed.

(** Writing wire text down: a string in double quotes, a line feed, and
    the frame of a content delta. *)
Definition quoted (s : string) : string :=
  String (ascii_of_nat 34) (s ++ String (ascii_of_nat 34) EmptyString).

Definition NL : string := String (ascii_of_nat 10) EmptyString.

Definition deltaFrame (content : string) : string :=
  ("data: {" ++ quoted "choices" ++ ":[{" ++ quoted "delta" ++ ":{"
   ++ quoted "content" ++ ":" ++ quoted content ++ "}}]}")%string.

(** The three frames of the specification's scenario. *)
Definition scenario : string :=
  (deltaFrame "Hel" ++ NL ++ NL ++ deltaFrame "lo" ++ NL ++ NL
   ++ "data: [DONE]" ++ NL)%string.

Definition okResponse (cs : list chunk) (e : stream_end) : fetch_result :=
  Resolved (mkResponse 200 (js "OK") (Some (mkBody cs e))).

(** The candidate frames of a run of chunks, chunk by chunk. *)
Definition framesOf (cs : list chunk) : list jsstring :=
  flat_map (fun value => linesOf (decode value)) cs.

(** The trace of a loop that goes through all of [cs] and on to the read
    after them. *)
Definition throughTrace (cs : list chunk) : list event :=
  flat_map (fun value => [EvCheck false; EvRead] ++ fst (onChunk value)) cs
  ++ [EvCheck false; EvRead].

Definition endCompletion (e : stream_end) : completion :=
  match e with
  | Closed => Normal
  | Errored err => Throw err
  end.

(** Every state the decoder reaches expects continuation bytes only. *)
Definition utf8_wf (st : utf8_state) : Prop :=
  match st with
  | Utf8Start => True
  | Utf8Pending _ _ lower _ => 0x80 <= lower
  end.

Ltac split_ifs :=
  repeat match goal with
         | |- context [if ?b then _ else _] => destruct b eqn:?
         end.

Ltac bool_facts :=
  repeat match goal with
         | H : (_ && _) = true |- _ => apply andb_true_iff in H; destruct H
         | H : (_ <=? _) = true |- _ => apply N.leb_le in H
         | H : (_ <=? _) = false |- _ => apply N.leb_gt in H
         | H : (_ =? _) = true |- _ => apply N.eqb_eq in H
         | H : (_ =? _) = false |- _ => apply N.eqb_neq in H
         end.

Abbreviation quiet t := (forallb (fun e => negb (isCheckOrRead e)) t = true).

(** The frame of the delta "Hel" with its line feed, cut after its
    twentieth byte. *)
Definition wholeFrame : chunk := bytes (deltaFrame "Hel" ++ NL).
Definition frameHead : chunk := firstn 20 wholeFrame.
Definition frameTail : chunk := skipn 20 wholeFrame.

(** The lengths the parser's fuel is measured against. *)
Abbreviation len := (@List.length N).

(** A parse on [s] had fuel enough and, when it succeeded, read at least
    one code unit. *)
Definition fueled {A : Type} (res : presult A) (s : jsstring) : Prop :=
  res <> POutOfFuel /\ forall v r, res = POk v r -> (len r < len s)%nat.

(* ------------------------------------------------------------------ *)
(** ** The request: [JSON.stringify] of the body, the headers

    [JSON.stringify] is applied by the source to one object literal,
    whose members are strings, a list of messages, [true] and [1000]; it
    is modelled on that shape, after SerializeJSONProperty and
    QuoteJSONString: no white space, members in the order written, a
    member whose value is undefined left out. *)

Definition isLeadSurrogate (c : N) : bool := (0xD800 <=? c) && (c <=? 0xDBFF).
Definition isTrailSurrogate (c : N) : bool := (0xDC00 <=? c) && (c <=? 0xDFFF).

(** One lower-case hexadecimal digit. *)
Definition hexDigit (n : N) : N := if n <? 10 then 48 + n else 87 + n.

(** UnicodeEscape of a code unit: [\uXXXX]. *)
Definition unicodeEscape (c : N) : jsstring :=
  [BACKSLASH; ch "u"; hexDigit (c / 4096); hexDigit ((c / 256) mod 16);
   hexDigit ((c / 16) mod 16); hexDigit (c mod 16)].

(** The characters of QuoteJSONString between the quotes: the short
    escapes, [\u] escapes for the other control characters and for
    surrogates that have no partner, everything else as it is. *)
Fixpoint quoteChars (s : jsstring) : jsstring :=
  match s with
  | [] => []
  | c :: r =>
      if c =? 8 then BACKSLASH :: ch "b" :: quoteChars r
      else if c =? 9 then BACKSLASH :: ch "t" :: quoteChars r
      else if c =? 10 then BACKSLASH :: ch "n" :: quoteChars r
      else if c =? 12 then BACKSLASH :: ch "f" :: quoteChars r
      else if c =? 13 then BACKSLASH :: ch "r" :: quoteChars r
      else if c =? QUOTE then BACKSLASH :: QUOTE :: quoteChars r
      else if c =? BACKSLASH then BACKSLASH :: BACKSLASH :: quoteChars r
      else if c <? 0x20 then unicodeEscape c ++ quoteChars r
      else if isLeadSurrogate c then
        match r with
        | d :: r' =>
            if isTrailSurrogate d then c :: d :: quoteChars r'
            else unicodeEscape c ++ quoteChars r
        | [] => unicodeEscape c
        end
      else if isTrailSurrogate c then unicodeEscape c ++ quoteChars r
      else c :: quoteChars r
  end.

Definition QuoteJSONString (s : jsstring) : jsstring :=
  QUOTE :: quoteChars s ++ [QUOTE].

(** A member [key:value] of an object, the value already serialised. *)
Definition member (key : string) (text : jsstring) : jsstring :=
  QuoteJSONString (js key) ++ js ":" ++ text.

Fixpoint joinWith (sep : jsstring) (parts : list jsstring) : jsstring :=
  match parts with
  | [] => []
  | [p] => p
  | p :: rest => p ++ sep ++ joinWith sep rest
  end.

(** An entry of the [messages] array. *)
Record chat_message := mkMessage { role : jsstring; content : jsstring }.

Definition stringifyMessage (m : chat_message) : jsstring :=
  js "{" ++ member "role" (QuoteJSONString (role m)) ++ js ","
  ++ member "content" (QuoteJSONString (content m)) ++ js "}".

Definition stringifyMessages (messages : list chat_message) : jsstring :=
  js "[" ++ joinWith (js ",") (map stringifyMessage messages) ++ js "]".

(** [interface AIServerConfig] *)
Record AIServerConfig := mkConfig {
  endpoint : jsstring;
  apiKey : option jsstring;
  model : option jsstring
}.

(** The member [model: config.model], absent when the model is undefined. *)
Definition modelMember (config : AIServerConfig) : jsstring :=
  match model config with
  | Some m => member "model" (QuoteJSONString m) ++ js ","
  | None => []
  end.

(** [JSON.stringify({model, messages, stream: true, max_tokens: 1000})] *)
Definition streamingBody (config : AIServerConfig)
    (messages : list chat_message) : jsstring :=
  js "{" ++ modelMember config
  ++ member "messages" (stringifyMessages messages) ++ js ","
  ++ member "stream" (js "true") ++ js ","
  ++ member "max_tokens" (js "1000") ++ js "}".

(** [JSON.stringify({model, messages, max_tokens: 1000})] *)
Definition nonStreamingBody (config : AIServerConfig)
    (messages : list chat_message) : jsstring :=
  js "{" ++ modelMember config
  ++ member "messages" (stringifyMessages messages) ++ js ","
  ++ member "max_tokens" (js "1000") ++ js "}".

(** The headers: the content type, and the key as a bearer token when
    there is a key that is not empty. *)
Definition requestHeaders (config : AIServerConfig)
  : list (jsstring * jsstring) :=
  (js "Content-Type", js "application/json")
  :: match apiKey config with
     | Some key =>
         if truthyString key
         then [(js "Authorization", js "Bearer " ++ key)]
         else []
     | None => []
     end.

Record http_request := mkRequest {
  url : jsstring;
  method : jsstring;
  headers : list (jsstring * jsstring);
  payload : jsstring
}.

(** The service: what [fetch] gives for a request. *)
Definition network := http_request -> fetch_result.

(* ------------------------------------------------------------------ *)
(** ** The participant: configuration, request, handlers *)

(** What the function does to its surroundings beyond the handling of
    the response: the progress notice, file reads, the request sent.
    [AStream] wraps the events of the response handling. *)
Inductive action :=
| AProgress (text : jsstring)      (* stream.progress(text) *)
| AReadFile (fsPath : jsstring)    (* vscode.workspace.fs.readFile(uri) *)
| AFetch (request : http_request)  (* fetch(url, init) *)
| AStream (e : event).

Definition run : Type := list action * completion.

(** An awaited call of an async function: its [return] is the normal end
    of the call, what it throws is thrown on. *)
Definition awaited (c : completion) : completion :=
  match c with
  | Throw e => Throw e
  | Normal | Return => Normal
  end.

Definition streamingRequest (config : AIServerConfig)
    (messages : list chat_message) : http_request :=
  mkRequest (endpoint config) (js "POST") (requestHeaders config)
            (streamingBody config messages).

(** [await streamAIResponse(messages, stream, config, token)], the request
    included: the response handled is the one the service gives for the
    request built from [config] and [messages]. *)
Definition streamAIResponseCall (net : network)
    (messages : list chat_message) (config : AIServerConfig) (tok : token)
  : run :=
  let request := streamingRequest config messages in
  let handled := streamAIResponse (net request) tok in
  (AFetch request :: map AStream (fst handled), awaited (snd handled)).

(** [vscode.workspace.getConfiguration('externalAI')]: the value in
    effect for a key, if there is one. *)
Definition configuration := string -> option jsstring.

(** [config.get(key, defaultValue)] *)
Definition get (settings : configuration) (key : string)
    (defaultValue : jsstring) : jsstring :=
  match settings key with
  | Some v => v
  | None => defaultValue
  end.

Definition getAIServerConfig (settings : configuration) : AIServerConfig :=
  mkConfig (get settings "endpoint" [])
           (Some (get settings "apiKey" []))
           (Some (get settings "model" (js "gpt-3.5-turbo"))).

(** A reference of the request: its value is a [vscode.Uri], of which the
    source uses the path, or something else. *)
Inductive reference :=
| RefUri (fsPath : jsstring)
| RefOther.

Record ChatRequest := mkChatRequest {
  command : option jsstring;
  prompt : jsstring;
  references : list reference
}.

(** The files of the workspace: the bytes [readFile] gives for a path,
    or [None] where it fails. *)
Definition workspace := jsstring -> option chunk.

Definition systemMessage (text : string) : chat_message :=
  mkMessage (js "system") (js text).

Definition userMessage (text : jsstring) : chat_message :=
  mkMessage (js "user") text.

Definition FENCE : jsstring := js "```".

(** The message pushed for a referenced file that could be read. *)
Definition fileMessage (fsPath : jsstring) (bytes : chunk) : chat_message :=
  userMessage (js "Referenced file " ++ fsPath ++ js ":" ++ [LF]
               ++ FENCE ++ [LF] ++ decode bytes ++ [LF] ++ FENCE).

(** [for (const ref of request.references)]: the reads made and the
    messages pushed, in order; a file that cannot be read is skipped. *)
Fixpoint readReferences (files : workspace) (refs : list reference)
  : list action * list chat_message :=
  match refs with
  | [] => ([], [])
  | RefUri fsPath :: rest =>
      let (reads, messages) := readReferences files rest in
      (AReadFile fsPath :: reads,
       match files fsPath with
       | Some bytes => fileMessage fsPath bytes :: messages
       | None => messages
       end)
  | RefOther :: rest => readReferences files rest
  end.

Definition handleGenericChat (net : network) (files : workspace)
    (request : ChatRequest) (config : AIServerConfig) (tok : token) : run :=
  let messages :=
    [systemMessage "You are a helpful AI assistant integrated into VS Code. Provide concise, helpful responses.";
     userMessage (prompt request)] in
  let (reads, pushed) := readReferences files (references request) in
  let call := streamAIResponseCall net (messages ++ pushed) config tok in
  (reads ++ fst call, snd call).

Definition handleSummarizeCommand (net : network)
    (request : ChatRequest) (config : AIServerConfig) (tok : token) : run :=
  streamAIResponseCall net
    [systemMessage "You are a summarization expert. Provide clear, concise summaries that capture the key points.";
     userMessage (js "Please summarize the following: " ++ prompt request)]
    config tok.

Definition handleTranslateCommand (net : network)
    (request : ChatRequest) (config : AIServerConfig) (tok : token) : run :=
  streamAIResponseCall net
    [systemMessage "You are a translation expert. Provide accurate translations while preserving meaning and context.";
     userMessage (prompt request)]
    config tok.

(** The sign U+26A0 U+FE0F and the cross U+274C of the two notices. *)
Definition CONFIGURE_NOTICE : jsstring :=
  [0x26A0; 0xFE0F]
  ++ js " Please configure your AI server endpoint in settings.".

Definition errorNotice (e : error) : jsstring :=
  [0x274C] ++ js " Error: " ++ message e.

Definition say (text : jsstring) : action := AStream (EvMarkdown (VString text)).

Definition commandIs (request : ChatRequest) (name : string) : bool :=
  match command request with
  | Some c => jsstring_eqb c (js name)
  | None => false
  end.

(** The [try] block of the participant's handler. *)
Definition handlerBlock (net : network) (files : workspace)
    (settings : configuration) (request : ChatRequest) (tok : token) : run :=
  let config := getAIServerConfig settings in
  if negb (truthyString (endpoint config)) then ([say CONFIGURE_NOTICE], Return)
  else
    let handled :=
      if commandIs request "summarize"
      then handleSummarizeCommand net request config tok
      else if commandIs request "translate"
      then handleTranslateCommand net request config tok
      else handleGenericChat net files request config tok in
    (AProgress (js "Connecting to AI server...") :: fst handled,
     match snd handled with
     | Normal => Return
     | c => c
     end).

(** The handler given to [createChatParticipant]: what it does and the
    [metadata.command] of the result it returns on either path. *)
Definition participantHandler (net : network) (files : workspace)
    (settings : configuration) (request : ChatRequest) (tok : token)
  : list action * option jsstring :=
  let block := handlerBlock net files settings request tok in
  (match snd block with
   | Throw e => fst block ++ [say (errorNotice e)]
   | _ => fst block
   end,
   command request).

(* ------------------------------------------------------------------ *)
(** ** [getNonStreamingResponse] *)

(** What the function can reject with: an [Error] with its message, or
    the SyntaxError of [response.json()] or the TypeError of an access on
    null. *)
Inductive rejection :=
| RejectedWith (e : error)
| Raised (x : parse_exn).

(** [await response.json()]: the whole body, decoded as UTF-8 and parsed;
    a body that fails before its end rejects with that failure, a body
    that is null reads as empty. *)
Definition responseJson (r : response) : rejection + value :=
  let text (cs : list chunk) :=
    match JSON_parse (decode (List.concat cs)) with
    | Some data => inr data
    | None => inl (Raised SyntaxError)
    end in
  match body r with
  | None => text []
  | Some b =>
      match ending b with
      | Closed => text (chunks b)
      | Errored e => inl (RejectedWith e)
      end
  end.

(** [data.choices?.[0]?.message?.content] *)
Definition messageContentOf (data : value) : parse_exn + value :=
  if nullish data then inl TypeError
  else
    let choices := getMember "choices" data in
    if nullish choices then inr VUndefined
    else
      let first := getFirst choices in
      if nullish first then inr VUndefined
      else
        let msg := getMember "message" first in
        if nullish msg then inr VUndefined
        else inr (getMember "content" msg).

Definition NO_RESPONSE : jsstring := js "No response received".

Definition nonStreamingRequest (config : AIServerConfig)
    (messages : list chat_message) : http_request :=
  mkRequest (endpoint config) (js "POST") (requestHeaders config)
            (nonStreamingBody config messages).

Definition getNonStreamingResponse (net : network)
    (messages : list chat_message) (config : AIServerConfig)
  : rejection + value :=
  match net (nonStreamingRequest config messages) with
  | Rejected e => inl (RejectedWith e)
  | Resolved response =>
      if negb (ok response) then
        inl (RejectedWith
               (mkError (js "AI service returned "
                         ++ numberToString (status response)
                         ++ js ": " ++ statusText response)))
      else
        match responseJson response with
        | inl failure => inl failure
        | inr data =>
            match messageContentOf data with
            | inl x => inl (Raised x)
            | inr c => inr (if ToBoolean c then c else VString NO_RESPONSE)
            end
        end
  end.

(* ------------------------------------------------------------------ *)
(** ** The command [external-ai.configure] *)

Inductive config_action :=
| AskEndpoint                      (* showInputBox: the endpoint URL *)
| AskApiKey                        (* showInputBox: the key, as a password *)
| Update (key : string) (v : jsstring)   (* update(key, v, Global) *)
| ShowSaved.                       (* showInformationMessage *)

(** An input box gives the text entered, or nothing when dismissed. *)
Definition entered (answer : option jsstring) : option jsstring :=
  match answer with
  | Some text => if truthyString text then Some text else None
  | None => None
  end.

Definition configureCommand (endpointAnswer apiKeyAnswer : option jsstring)
  : list config_action :=
  AskEndpoint ::
  match entered endpointAnswer with
  | Some e =>
      Update "endpoint" e :: AskApiKey ::
      match entered apiKeyAnswer with
      | Some k => [Update "apiKey" k; ShowSaved]
      | None => [ShowSaved]
      end
  | None => []
  end.

(* ------------------------------------------------------------------ *)
(** ** Further observations *)

Fixpoint releases (t : list event) : nat :=
  match t with
  | [] => 0%nat
  | EvReleaseLock :: t' => S (releases t')
  | _ :: t' => releases t'
  end.

(** The requests sent and the files read in a run. *)
Fixpoint fetches (t : list action) : list http_request :=
  match t with
  | [] => []
  | AFetch r :: t' => r :: fetches t'
  | _ :: t' => fetches t'
  end.

Fixpoint fileReads (t : list action) : list jsstring :=
  match t with
  | [] => []
  | AReadFile p :: t' => p :: fileReads t'
  | _ :: t' => fileReads t'
  end.

(** What reaches the sink through [stream.markdown]. *)
Fixpoint said (t : list action) : list value :=
  match t with
  | [] => []
  | AStream (EvMarkdown v) :: t' => v :: said t'
  | _ :: t' => said t'
  end.

Definition uriPaths (refs : list reference) : list jsstring :=
  flat_map (fun r => match r with RefUri p => [p] | RefOther => [] end) refs.

(** The lines up to the first sentinel frame. *)
Fixpoint untilSentinel (lines : list jsstring) : list jsstring :=
  match lines with
  | [] => []
  | line :: rest =>
      if isSentinelFrame line then [] else line :: untilSentinel rest
  end.

(** The object the request body stands for. *)
Definition messageValue (m : chat_message) : value :=
  VObject [(js "role", VString (role m)); (js "content", VString (content m))].

Definition bodyValue (config : AIServerConfig)
    (messages : list chat_message) (streaming : bool) : value :=
  VObject
    (match model config with
     | Some m => [(js "model", VString m)]
     | None => []
     end
     ++ [(js "messages", VArray (map messageValue messages))]
     ++ (if streaming then [(js "stream", VBool true)] else [])
     ++ [(js "max_tokens", VNumber (mkNumber false 1000 0))]).

(* ------------------------------------------------------------------ *)
(** ** Definitions for the properties of the request and the turn *)

(** [t] is read by the string parser as the characters [tail], the
    closing quote, and [rest] after it. *)
Definition readsAs (rest t tail : jsstring) : Prop :=
  forall acc, parse_chars t acc = Some (rev acc ++ tail, rest).

Definition bodyText (config : AIServerConfig) (messages : list chat_message)
    (streaming : bool) : jsstring :=
  if streaming then streamingBody config messages
  else nonStreamingBody config messages.

(** Wire text as a service writes it: an object of one member, and the
    reply shape of one choice whose member [field] holds the content, the
    text quoted as JSON. *)
Definition object1 (key : string) (text : jsstring) : jsstring :=
  js "{" ++ member key text ++ js "}".

Definition choiceText (field : string) (text : jsstring) : jsstring :=
  object1 "choices"
    (js "[" ++ object1 field (object1 "content" (QuoteJSONString text))
     ++ js "]").

Definition choiceValue (field : string) (text : jsstring) : value :=
  VObject [(js "choices",
            VArray [VObject [(js field,
                              VObject [(js "content", VString text)])]])].

(** The line of a delta frame carrying [text]. *)
Definition deltaLine (text : jsstring) : jsstring :=
  DATA_PREFIX ++ choiceText "delta" text.

(** The events of the response handling among the actions of a run. *)
Fixpoint streamEvents (t : list action) : list event :=
  match t with
  | [] => []
  | AStream e :: t' => e :: streamEvents t'
  | _ :: t' => streamEvents t'
  end.

(** The file messages for the paths that can be read. *)
Definition readable (files : workspace) (paths : list jsstring)
  : list chat_message :=
  flat_map (fun p => match files p with
                     | Some bytes => [fileMessage p bytes]
                     | None => []
                     end) paths.

Definition GENERIC_SYSTEM : chat_message :=
  systemMessage "You are a helpful AI assistant integrated into VS Code. Provide concise, helpful responses.".
Definition SUMMARIZE_SYSTEM : chat_message :=
  systemMessage "You are a summarization expert. Provide clear, concise summaries that capture the key points.".
Definition TRANSLATE_SYSTEM : chat_message :=
  systemMessage "You are a translation expert. Provide accurate translations while preserving meaning and context.".

(** Whether a reader is taken from the response. *)
Definition readerTaken (fetched : fetch_result) : bool :=
  match fetched with
  | Resolved r => ok r && match body r with Some _ => true | None => false end
  | Rejected _ => false
  end.

(** A reply with the content "Hello", as bytes. *)
Definition helloReply : chunk :=
  bytes ("{" ++ quoted "choices" ++ ":[{" ++ quoted "message" ++ ":{"
         ++ quoted "content" ++ ":" ++ quoted "Hello" ++ "}}]}").

(* ================================================================== *)
(** * Properties *)

(** ** The platform functions on examples *)

Example split_ex :
  split LF (js "a" ++ [LF] ++ js "b" ++ [LF]) = [js "a"; js "b"; []].
Proof. reflexivity. Qed.

Example trim_ex : trim (js "  data: x " ++ [13]) = js "data: x".
Proof. reflexivity. Qed.

Example decode_ex : decode (bytes "data: x") = js "data: x".
Proof. reflexivity. Qed.

(** E2 82 AC is the euro sign; F0 9F 98 80 a code point outside the BMP;
    a lone continuation byte and a truncated sequence are replaced. *)
Example decode_utf8_ex :
  decode [xe2; x82; xac; xf0; x9f; x98; x80; x80; xe2; x82]
  = [0x20AC; 0xD83D; 0xDE00; 0xFFFD; 0xFFFD].
Proof. reflexivity. Qed.

Example decode_bom_ex : decode [xef; xbb; xbf; x41] = [0x41].
Proof. reflexivity. Qed.

Example parse_nested_ex :
  JSON_parse (js "[1, [true,false, null] ,{}]")
  = Some (VArray [VNumber (mkNumber false 1 0);
                  VArray [VBool true; VBool false; VNull];
                  VObject []]).
Proof. vm_compute. reflexivity. Qed.

Example parse_number_ex :
  JSON_parse (js " -0.5e+3 ") = Some (VNumber (mkNumber true 5 2)).
Proof. vm_compute. reflexivity. Qed.

Example parse_rejects_ex :
  map JSON_parse
    [js "01"; js "[1,2,]"; js "{not valid json"; js "[DONE]"; js "-";
     js "1."; js ".5"; js "1e"; js ""; js "  "; js "tru"; js "nulll";
     js "[]]"]
  = repeat None 13.
Proof. vm_compute. reflexivity. Qed.

Example parse_delta_ex :
  option_map contentOf
    (JSON_parse (skipn 6 (js (deltaFrame "Hel"))))
  = Some (inr (VString (js "Hel"))).
Proof. vm_compute. reflexivity. Qed.

(** Zero, a literal below half the least double, and the least double. *)
Example truthy_numbers_ex :
  map (fun s => option_map ToBoolean (JSON_parse (js s)))
      ["0"; "-0.0e5"; "1e-400"; "2e-324"; "3e-324"; "5e-324"; "1e999"]%string
  = map Some [false; false; false; false; true; true; true].
Proof. vm_compute. reflexivity. Qed.

(* ------------------------------------------------------------------ *)
(** ** Sequencing *)

Section Sequencing.
Variables m k l : M.

Lemma seq_skip_l : skip ;; m = m.
Proof. destruct m; reflexivity. Qed.

Lemma seq_skip_r : m ;; skip = m.
Proof.
  destruct m as [t []]; unfold seq; simpl; try reflexivity.
  now rewrite app_nil_r.
Qed.

Lemma seq_assoc : (m ;; k) ;; l = m ;; (k ;; l).
Proof.
  destruct m as [t []], k as [t' []], l as [t'' c'']; unfold seq; simpl;
    try reflexivity; now rewrite app_assoc.
Qed.

Lemma seq_abrupt : snd m <> Normal -> m ;; k = m.
Proof. destruct m as [t []]; simpl; intros H; congruence || reflexivity. Qed.

Lemma seq_normal : snd m = Normal -> m ;; k = (fst m ++ fst k, snd k).
Proof. destruct m as [t c]; simpl; intros ->; reflexivity. Qed.

Lemma threw_seq :
  threw (snd m) = false -> threw (snd k) = false ->
  threw (snd (m ;; k)) = false.
Proof. destruct m as [t []], k as [t' c']; simpl; auto. Qed.
End Sequencing.

Lemma increments_app t t' : increments (t ++ t') = increments t ++ increments t'.
Proof.
  induction t as [|e t IH]; simpl; [reflexivity|].
  destruct e; simpl; now rewrite ?IH.
Qed.

Lemma reads_app t t' : reads (t ++ t') = (reads t + reads t')%nat.
Proof.
  induction t as [|e t IH]; simpl; [reflexivity|].
  destruct e; simpl; now rewrite ?IH.
Qed.

(** The outcome of a sequence depends on its parts through their outcomes
    only. *)
Lemma outcome_seq m k :
  outcome (m ;; k) =
  match snd m with
  | Normal => (fst (outcome m) ++ fst (outcome k), snd (outcome k))
  | _ => outcome m
  end.
Proof.
  destruct m as [t []], k as [t' c']; unfold outcome; simpl; try reflexivity.
  now rewrite increments_app.
Qed.

Lemma outcome_seq_congr m m' k k' :
  outcome m = outcome m' -> outcome k = outcome k' ->
  outcome (m ;; k) = outcome (m' ;; k').
Proof.
  intros Hm Hk. rewrite !outcome_seq, Hk.
  assert (snd m = snd m') as -> by (now injection Hm).
  now rewrite Hm.
Qed.

(* ------------------------------------------------------------------ *)
(** ** The loop over the lines of a chunk *)

Lemma forLines_app l1 l2 : forLines (l1 ++ l2) = forLines l1 ;; forLines l2.
Proof.
  induction l1 as [|line l1 IH]; cbn [forLines app].
  - now rewrite seq_skip_l.
  - now rewrite IH, seq_assoc.
Qed.

(** The loop body completes normally or by [return]; it never throws. *)
Lemma forBody_completion line :
  snd (forBody line) = Normal \/ snd (forBody line) = Return.
Proof.
  unfold forBody.
  destruct (startsWith line DATA_PREFIX); [|now left].
  destruct (jsstring_eqb (slice 6 line) DONE); [now right|].
  destruct (parseContent (slice 6 line)) as [x|content]; [now left|].
  destruct (ToBoolean content); now left.
Qed.

Lemma forBody_no_throw line : threw (snd (forBody line)) = false.
Proof. destruct (forBody_completion line) as [-> | ->]; reflexivity. Qed.

Lemma forLines_no_throw lines : threw (snd (forLines lines)) = false.
Proof.
  induction lines as [|line rest IH]; cbn [forLines]; [reflexivity|].
  apply threw_seq; [apply forBody_no_throw | exact IH].
Qed.

(** Inside a chunk nothing is checked or read. *)
Lemma forBody_quiet line :
  forallb (fun e => negb (isCheckOrRead e)) (fst (forBody line)) = true.
Proof.
  unfold forBody.
  destruct (startsWith line DATA_PREFIX); [|reflexivity].
  destruct (jsstring_eqb (slice 6 line) DONE); [reflexivity|].
  destruct (parseContent (slice 6 line)) as [x|content]; [reflexivity|].
  destruct (ToBoolean content); reflexivity.
Qed.

Lemma fst_seq_quiet m k :
  forallb (fun e => negb (isCheckOrRead e)) (fst m) = true ->
  forallb (fun e => negb (isCheckOrRead e)) (fst k) = true ->
  forallb (fun e => negb (isCheckOrRead e)) (fst (m ;; k)) = true.
Proof.
  destruct m as [t []], k as [t' c']; simpl; intros Hm Hk; try assumption.
  rewrite forallb_app. now rewrite Hm, Hk.
Qed.

Lemma forLines_quiet lines :
  forallb (fun e => negb (isCheckOrRead e)) (fst (forLines lines)) = true.
Proof.
  induction lines as [|line rest IH]; cbn [forLines]; [reflexivity|].
  apply fst_seq_quiet; [apply forBody_quiet | exact IH].
Qed.

Lemma quiet_reads t :
  forallb (fun e => negb (isCheckOrRead e)) t = true -> reads t = 0%nat.
Proof.
  induction t as [|e t IH]; simpl; [reflexivity|].
  destruct e; simpl; intros H; try discriminate; now apply IH.
Qed.

Lemma quiet_checkedReads t t' :
  forallb (fun e => negb (isCheckOrRead e)) t = true ->
  checkedReads (t ++ t') = checkedReads t'.
Proof.
  induction t as [|e t IH]; simpl; [reflexivity|].
  destruct e; simpl; intros H; try discriminate; now apply IH.
Qed.

(* ------------------------------------------------------------------ *)
(** ** The read loop *)

Lemma whileLoop_cancelled tok i cs e :
  tok i = true -> whileLoop tok i cs e = ([EvCheck true], Normal).
Proof. intros H. destruct cs; cbn [whileLoop]; rewrite H; reflexivity. Qed.

Lemma whileLoop_end tok i e :
  tok i = false ->
  whileLoop tok i [] e =
  ([EvCheck false; EvRead],
   match e with Closed => Normal | Errored err => Throw err end).
Proof. intros H. cbn [whileLoop]. rewrite H. destruct e; reflexivity. Qed.

Lemma whileLoop_chunk tok i value rest e :
  tok i = false ->
  whileLoop tok i (value :: rest) e =
  ([EvCheck false; EvRead], Normal) ;;
  onChunk value ;; whileLoop tok (S i) rest e.
Proof.
  intros H. cbn [whileLoop]. rewrite H.
  destruct (onChunk value ;; whileLoop tok (S i) rest e) as [t c].
  reflexivity.
Qed.

Lemma onChunk_no_throw value : threw (snd (onChunk value)) = false.
Proof. apply forLines_no_throw. Qed.

Lemma onChunk_reads value : reads (fst (onChunk value)) = 0%nat.
Proof. apply quiet_reads, forLines_quiet. Qed.

(** The loop reads at most once more than there are chunks. *)
Lemma whileLoop_reads tok cs e :
  forall i, (reads (fst (whileLoop tok i cs e)) <= S (List.length cs))%nat.
Proof.
  induction cs as [|value rest IH]; intros i.
  - destruct (tok i) eqn:H.
    + rewrite whileLoop_cancelled by exact H. simpl. lia.
    + rewrite whileLoop_end by exact H. simpl. lia.
  - destruct (tok i) eqn:H.
    + rewrite whileLoop_cancelled by exact H. simpl. lia.
    + rewrite whileLoop_chunk by exact H.
      specialize (IH (S i)).
      pose proof (onChunk_reads value) as Hq.
      destruct (onChunk value) as [t []],
               (whileLoop tok (S i) rest e) as [t' c'];
        simpl in *; rewrite ?reads_app; lia.
Qed.

(** Without a failing end the loop does not throw. *)
Lemma whileLoop_closed_no_throw tok cs :
  forall i, threw (snd (whileLoop tok i cs Closed)) = false.
Proof.
  induction cs as [|value rest IH]; intros i.
  - destruct (tok i) eqn:H.
    + now rewrite whileLoop_cancelled.
    + now rewrite whileLoop_end.
  - destruct (tok i) eqn:H.
    + now rewrite whileLoop_cancelled.
    + rewrite whileLoop_chunk by exact H.
      apply threw_seq; [reflexivity|].
      apply threw_seq; [apply onChunk_no_throw | apply IH].
Qed.

(* ------------------------------------------------------------------ *)
(** ** The scenario of the specification *)

Lemma scenario_chunk :
  onChunk (bytes scenario)
  = ([EvMarkdown (VString (js "Hel")); EvMarkdown (VString (js "lo"))],
     Return).
Proof. vm_compute. reflexivity. Qed.

(** C7. The three frames of the scenario (a delta "Hel", a blank line, a
    delta "lo", a blank line, the sentinel), received in one chunk of an
    accepted response, are decoded to the increments "Hel" and "lo", in
    this order, and the function returns without an error after releasing
    the reader, whatever the body holds after that chunk; so are they when
    each frame comes in a chunk of its own. *)
Theorem scenario_decodes :
  (forall rest ending,
     streamAIResponse (okResponse (bytes scenario :: rest) ending) never
     = ([EvCheck false; EvRead;
         EvMarkdown (VString (js "Hel")); EvMarkdown (VString (js "lo"));
         EvReleaseLock],
        Return))
  /\ outcome
       (streamAIResponse
          (okResponse [bytes (deltaFrame "Hel" ++ NL ++ NL);
                       bytes (deltaFrame "lo" ++ NL ++ NL);
                       bytes ("data: [DONE]" ++ NL)] Closed) never)
     = ([VString (js "Hel"); VString (js "lo")], Return).
Proof.
  split.
  - intros rest ending.
    unfold streamAIResponse, tryBlock, okResponse.
    cbn [ok status body chunks negb andb N.leb N.compare].
    change (ok _) with true. cbn [negb].
    rewrite whileLoop_chunk by reflexivity.
    rewrite scenario_chunk. reflexivity.
  - vm_compute. reflexivity.
Qed.

(* ------------------------------------------------------------------ *)
(** ** A rejected request *)

(** C4, as stated, fails: for a response with status 401 the function
    does not fail and the sink does not stay empty. The function
    completes normally and the sink receives one text, the notice; what
    the caller and the sink see is what they see of an accepted response
    whose one delta carries that text. *)
Lemma rejected_request_writes_to_sink :
  let r := mkResponse 401 (js "Unauthorized")
             (Some (mkBody [bytes scenario] Closed)) in
  let accepted :=
    okResponse
      [bytes (deltaFrame "Failed to get response from AI service: AI service returned 401: Unauthorized"
              ++ NL)] Closed in
  ok r = false
  /\ snd (streamAIResponse (Resolved r) never) = Normal
  /\ increments (fst (streamAIResponse (Resolved r) never))
     = [VString (js "Failed to get response from AI service: AI service returned 401: Unauthorized")]
  /\ outcome (streamAIResponse (Resolved r) never)
     = outcome (streamAIResponse accepted never).
Proof. cbv zeta. repeat split; vm_compute; reflexivity. Qed.

(** C4, amended. When the response status is not a success status, the
    inner block of the function fails with an error whose message carries
    that status and status text, before the body is touched: no reader is
    taken, nothing is read, nothing of the body reaches the sink. The
    handler of the function itself catches that error: the notice of the
    failure is the one text handed to the sink, and the function
    completes normally. *)
Theorem rejected_before_streaming (r : response) (tok : token) :
  ok r = false ->
  let failure :=
    mkError (js "AI service returned " ++ numberToString (status r)
             ++ js ": " ++ statusText r) in
  tryBlock (Resolved r) tok = ([], Throw failure)
  /\ reads (fst (streamAIResponse (Resolved r) tok)) = 0%nat
  /\ streamAIResponse (Resolved r) tok
     = ([EvMarkdown (failureNotice failure)], Normal).
Proof.
  intros H failure.
  assert (tryBlock (Resolved r) tok = ([], Throw failure)) as Hb.
  { unfold tryBlock. rewrite H. reflexivity. }
  unfold streamAIResponse. rewrite Hb. repeat split.
Qed.

Lemma rejected_before_streaming_witness :
  ok (mkResponse 401 (js "Unauthorized")
        (Some (mkBody [bytes scenario] Closed))) = false
  /\ streamAIResponse
       (Resolved (mkResponse 401 (js "Unauthorized")
                    (Some (mkBody [bytes scenario] Closed)))) never
     = ([EvMarkdown
           (VString (js "Failed to get response from AI service: AI service returned 401: Unauthorized"))],
        Normal).
Proof.
  split; [reflexivity|].
  apply (rejected_before_streaming
           (mkResponse 401 (js "Unauthorized")
              (Some (mkBody [bytes scenario] Closed))) never).
  reflexivity.
Defined.

(* ------------------------------------------------------------------ *)
(** ** The sentinel *)

Lemma jsstring_eqb_eq a b : jsstring_eqb a b = true <-> a = b.
Proof.
  revert b; induction a as [|x a IH]; intros [|y b]; simpl;
    try (split; congruence).
  rewrite andb_true_iff, N.eqb_eq, IH. split.
  - now intros [-> ->].
  - intros [= -> ->]. now split.
Qed.

Lemma startsWith_app s p : startsWith s p = true -> s = p ++ skipn (List.length p) s.
Proof.
  revert s; induction p as [|x p IH]; intros [|y s]; simpl;
    try reflexivity; try discriminate.
  rewrite andb_true_iff, N.eqb_eq. intros [-> H].
  f_equal. now apply IH.
Qed.

Lemma sentinel_frame_line line :
  isSentinelFrame line = true <-> line = DATA_PREFIX ++ DONE.
Proof.
  unfold isSentinelFrame. rewrite andb_true_iff, jsstring_eqb_eq. split.
  - intros [Hp Hd]. apply startsWith_app in Hp.
    rewrite Hp. change (List.length DATA_PREFIX) with 6%nat.
    unfold slice in Hd. now rewrite Hd.
  - intros ->. split; reflexivity.
Qed.

Lemma forBody_sentinel line :
  isSentinelFrame line = true -> forBody line = returnNow.
Proof.
  unfold isSentinelFrame, forBody. rewrite andb_true_iff.
  now intros [-> ->].
Qed.

Lemma forBody_not_sentinel line :
  isSentinelFrame line = false -> snd (forBody line) = Normal.
Proof.
  unfold isSentinelFrame, forBody.
  destruct (startsWith line DATA_PREFIX); [|reflexivity].
  cbn [andb]. intros ->.
  destruct (parseContent (slice 6 line)) as [x|content]; [reflexivity|].
  destruct (ToBoolean content); reflexivity.
Qed.

Lemma forLines_not_sentinel lines :
  (forall line, In line lines -> isSentinelFrame line = false) ->
  snd (forLines lines) = Normal.
Proof.
  induction lines as [|line rest IH]; intros H; cbn [forLines];
    [reflexivity|].
  rewrite seq_normal by (apply forBody_not_sentinel, H; now left).
  apply IH. intros l Hl. apply H. now right.
Qed.

(** Once a sentinel frame is among the lines, the loop ends by [return]
    with the lines before it done and none after it looked at. *)
Lemma forLines_sentinel l1 line l2 :
  isSentinelFrame line = true ->
  forLines (l1 ++ line :: l2) = forLines l1 ;; returnNow.
Proof.
  intros H. rewrite forLines_app. cbn [forLines].
  now rewrite (forBody_sentinel _ H).
Qed.

Lemma forLines_sentinel_return l1 :
  snd (forLines l1 ;; returnNow) = Return.
Proof.
  pose proof (forLines_no_throw l1) as H.
  destruct (forLines l1) as [t []]; simpl in *; congruence.
Qed.

Lemma whileLoop_stops_at tok value after after' e e' :
  snd (onChunk value) = Return ->
  forall before i,
    whileLoop tok i (before ++ value :: after) e
    = whileLoop tok i (before ++ value :: after') e'
    /\ (reads (fst (whileLoop tok i (before ++ value :: after) e))
         <= S (List.length before))%nat
    /\ threw (snd (whileLoop tok i (before ++ value :: after) e)) = false.
Proof.
  intros Hret.
  assert (forall k, onChunk value ;; k = onChunk value) as Hstop.
  { intros k. apply seq_abrupt. rewrite Hret. discriminate. }
  induction before as [|b before IH]; intros i; cbn [app List.length].
  - destruct (tok i) eqn:H.
    + rewrite !whileLoop_cancelled by exact H. simpl. repeat split. lia.
    + rewrite !whileLoop_chunk by exact H. rewrite !Hstop.
      pose proof (onChunk_reads value) as Hq.
      destruct (onChunk value) as [t c]. simpl in *. subst c.
      repeat split. simpl. lia.
  - destruct (tok i) eqn:H.
    + rewrite !whileLoop_cancelled by exact H. simpl. repeat split. lia.
    + rewrite !whileLoop_chunk by exact H.
      destruct (IH (S i)) as (Heq & Hr & Ht). rewrite <- Heq.
      pose proof (onChunk_reads b) as Hq.
      pose proof (onChunk_no_throw b) as Hn.
      destruct (onChunk b) as [t []],
               (whileLoop tok (S i) (before ++ value :: after) e) as [t' c'];
        simpl in *; rewrite ?reads_app; repeat split; try lia; congruence.
Qed.

(** C2, as stated, fails: the payload is compared with the sentinel as
    it stands on the line, which is not trimmed. On a stream with CR LF
    line ends the sentinel line keeps its carriage return: trimmed, its
    payload is the sentinel, yet the line is answered with a warning, the
    frame after it in the chunk yields its increment, and the next chunk
    is read and yields too. *)
Lemma sentinel_before_carriage_return_is_missed :
  let line := js "data: [DONE]" ++ [13] in
  let stream :=
    [bytes (deltaFrame "Hel") ++ [x0d; x0a]
     ++ bytes "data: [DONE]" ++ [x0d; x0a]
     ++ bytes (deltaFrame "late") ++ [x0d; x0a];
     bytes (deltaFrame "later") ++ [x0d; x0a]] in
  In line (framesOf stream)
  /\ slice 6 (trim line) = DONE
  /\ forBody line = emit (EvWarn SyntaxError)
  /\ streamAIResponse (okResponse stream Closed) never
     = ([EvCheck false; EvRead;
         EvMarkdown (VString (js "Hel")); EvWarn SyntaxError;
         EvMarkdown (VString (js "late"));
         EvCheck false; EvRead; EvMarkdown (VString (js "later"));
         EvCheck false; EvRead; EvReleaseLock],
        Normal).
Proof.
  cbv zeta. split; [vm_compute; tauto|].
  split; [vm_compute; reflexivity|].
  split; vm_compute; reflexivity.
Qed.

(** C2, amended. When a line of a chunk, as the chunk is split and with
    nothing trimmed off, is the prefix followed by the sentinel and
    nothing else, the lines of the chunk after it are not handled at all
    (the chunk ends by [return] with only the lines before it done), the
    run is the same whatever chunks or failure would follow, at most the
    chunks up to this one are read, and the function does not fail. *)
Theorem sentinel_stops_decoding
    (tok : token) (i : nat) (before after : list chunk) (value : chunk)
    (ending : stream_end) (l1 l2 : list jsstring) (line : jsstring) :
  linesOf (decode value) = l1 ++ line :: l2 ->
  isSentinelFrame line = true ->
  line = DATA_PREFIX ++ DONE
  /\ onChunk value = forLines l1 ;; returnNow
  /\ snd (onChunk value) = Return
  /\ (forall after' ending',
        whileLoop tok i (before ++ value :: after) ending
        = whileLoop tok i (before ++ value :: after') ending')
  /\ (reads (fst (whileLoop tok i (before ++ value :: after) ending))
       <= S (List.length before))%nat
  /\ threw (snd (whileLoop tok i (before ++ value :: after) ending)) = false.
Proof.
  intros Hl Hs.
  assert (onChunk value = forLines l1 ;; returnNow) as Hc.
  { unfold onChunk. rewrite Hl. now apply forLines_sentinel. }
  assert (snd (onChunk value) = Return) as Hr.
  { rewrite Hc. apply forLines_sentinel_return. }
  split; [now apply sentinel_frame_line|].
  split; [exact Hc|]. split; [exact Hr|].
  split; [|split].
  - intros after' ending'.
    now apply (whileLoop_stops_at tok value after after' ending ending' Hr).
  - now apply (whileLoop_stops_at tok value after after ending ending Hr).
  - now apply (whileLoop_stops_at tok value after after ending ending Hr).
Qed.

Lemma sentinel_stops_decoding_witness :
  whileLoop never 0
    ([bytes (deltaFrame "Hel" ++ NL)]
     ++ bytes ("data: [DONE]" ++ NL ++ deltaFrame "late" ++ NL)
     :: [bytes (deltaFrame "later" ++ NL)]) (Errored (mkError (js "reset")))
  = whileLoop never 0
      ([bytes (deltaFrame "Hel" ++ NL)]
       ++ bytes ("data: [DONE]" ++ NL ++ deltaFrame "late" ++ NL)
       :: []) Closed.
Proof.
  refine (proj1 (proj2 (proj2 (proj2
    (sentinel_stops_decoding never 0 [bytes (deltaFrame "Hel" ++ NL)]
       [bytes (deltaFrame "later" ++ NL)]
       (bytes ("data: [DONE]" ++ NL ++ deltaFrame "late" ++ NL))
       (Errored (mkError (js "reset")))
       [] [js (deltaFrame "late")] (js "data: [DONE]") _ _)))) [] Closed).
  - vm_compute. reflexivity.
  - vm_compute. reflexivity.
Defined.

(* ------------------------------------------------------------------ *)
(** ** The two [try] blocks *)

Lemma tryFinally_release m :
  tryFinally m (emit EvReleaseLock) = (fst m ++ [EvReleaseLock], snd m).
Proof. reflexivity. Qed.

Lemma outcome_release m :
  outcome (tryFinally m (emit EvReleaseLock)) = outcome m.
Proof.
  rewrite tryFinally_release. unfold outcome. simpl.
  rewrite increments_app. simpl. now rewrite app_nil_r.
Qed.

Lemma tryCatch_no_throw m h : threw (snd m) = false -> tryCatch m h = m.
Proof. destruct m as [t []]; simpl; intros H; congruence || reflexivity. Qed.

Lemma tryBlock_accepted r tok cs e :
  ok r = true -> body r = Some (mkBody cs e) ->
  tryBlock (Resolved r) tok
  = tryFinally (whileLoop tok 0 cs e) (emit EvReleaseLock).
Proof. intros Hok Hb. unfold tryBlock. rewrite Hok, Hb. reflexivity. Qed.

(* ------------------------------------------------------------------ *)
(** ** Runs that go through all the chunks *)

Lemma framesOf_cons value rest :
  framesOf (value :: rest) = linesOf (decode value) ++ framesOf rest.
Proof. reflexivity. Qed.

Lemma onChunk_normal value :
  (forall line, In line (linesOf (decode value)) -> isSentinelFrame line = false) ->
  onChunk value = (fst (onChunk value), Normal).
Proof.
  intros H. pose proof (forLines_not_sentinel _ H) as Hn.
  unfold onChunk. destruct (forLines _) as [t c]. simpl in *. now subst.
Qed.

Lemma whileLoop_through tok cs e :
  (forall line, In line (framesOf cs) -> isSentinelFrame line = false) ->
  forall i,
    (forall n, (n <= List.length cs)%nat -> tok (i + n)%nat = false) ->
    whileLoop tok i cs e = (throughTrace cs, endCompletion e).
Proof.
  induction cs as [|value rest IH]; intros Hs i Ht.
  - rewrite whileLoop_end; [reflexivity|].
    rewrite <- (Nat.add_0_r i). apply Ht. simpl. lia.
  - rewrite whileLoop_chunk
      by (rewrite <- (Nat.add_0_r i); apply Ht; simpl; lia).
    rewrite onChunk_normal
      by (intros l Hl; apply Hs; rewrite framesOf_cons, in_app_iff; now left).
    rewrite IH.
    + unfold throughTrace. cbn [flat_map seq fst snd].
      now rewrite <- !app_assoc.
    + intros l Hl. apply Hs. rewrite framesOf_cons, in_app_iff. now right.
    + intros n Hn. replace (S i + n)%nat with (i + S n)%nat by lia.
      apply Ht. simpl. lia.
Qed.

Lemma throughTrace_reads cs : reads (throughTrace cs) = S (List.length cs).
Proof.
  unfold throughTrace. rewrite reads_app. simpl.
  induction cs as [|value rest IH]; simpl; [reflexivity|].
  rewrite reads_app, onChunk_reads. simpl in *. lia.
Qed.

Lemma throughTrace_increments cs :
  (forall line, In line (framesOf cs) -> isSentinelFrame line = false) ->
  increments (throughTrace cs) = increments (fst (forLines (framesOf cs))).
Proof.
  unfold throughTrace. rewrite increments_app. simpl. rewrite app_nil_r.
  induction cs as [|value rest IH]; intros Hs; [reflexivity|].
  rewrite framesOf_cons, forLines_app.
  cbn [flat_map]. rewrite !increments_app. cbn [increments app].
  fold (onChunk value).
  rewrite (onChunk_normal value)
    by (intros l Hl; apply Hs; rewrite framesOf_cons, in_app_iff; now left).
  cbn [seq fst snd]. rewrite increments_app. f_equal.
  apply IH. intros l Hl. apply Hs. rewrite framesOf_cons, in_app_iff. now right.
Qed.

(** C3, as stated, fails: a read that fails is not passed on to the
    caller. The function completes normally; the failure shows as one
    more text on the sink, after the increment already delivered, and what
    the caller and the sink see is what they see of a stream that closes
    cleanly after a delta carrying the text of the notice. *)
Lemma read_failure_is_not_raised :
  let failing :=
    streamAIResponse
      (okResponse [bytes (deltaFrame "Hel" ++ NL)]
         (Errored (mkError (js "terminated")))) never in
  let clean :=
    streamAIResponse
      (okResponse
         [bytes (deltaFrame "Hel" ++ NL);
          bytes (deltaFrame "Failed to get response from AI service: terminated"
                 ++ NL)] Closed) never in
  snd failing = Normal
  /\ increments (fst failing)
     = [VString (js "Hel");
        VString (js "Failed to get response from AI service: terminated")]
  /\ outcome failing = outcome clean.
Proof. cbv zeta. repeat split; vm_compute; reflexivity. Qed.

(** C3, amended. When a read of the body fails after the chunks [cs] have
    come (the token not being cancelled and no sentinel met before), the
    failure leaves the inner block as its error after the reader is
    released and is caught by the handler of the function itself, which
    hands the notice with the error's message to the sink; the function
    then completes normally, so that nothing is thrown to its caller.
    What was delivered before stays as it was: the run up to the failure
    is the run of the same chunks on a body that ends cleanly, with every
    increment of those chunks in order, the notice comes after them, and
    the failing read is made once and not again. *)
Theorem read_failure_is_caught_and_reported
    (tok : token) (r : response) (cs : list chunk) (e : error) :
  ok r = true ->
  body r = Some (mkBody cs (Errored e)) ->
  (forall n, (n <= List.length cs)%nat -> tok n = false) ->
  (forall line, In line (framesOf cs) -> isSentinelFrame line = false) ->
  whileLoop tok 0 cs Closed = (throughTrace cs, Normal)
  /\ tryBlock (Resolved r) tok = (throughTrace cs ++ [EvReleaseLock], Throw e)
  /\ streamAIResponse (Resolved r) tok
     = (throughTrace cs ++ [EvReleaseLock; EvMarkdown (failureNotice e)],
        Normal)
  /\ increments (throughTrace cs) = increments (fst (forLines (framesOf cs)))
  /\ reads (fst (streamAIResponse (Resolved r) tok)) = S (List.length cs).
Proof.
  intros Hok Hb Ht Hs.
  assert (tryBlock (Resolved r) tok
          = (throughTrace cs ++ [EvReleaseLock], Throw e)) as Hblock.
  { rewrite (tryBlock_accepted r tok cs (Errored e) Hok Hb).
    rewrite (whileLoop_through tok cs (Errored e) Hs 0 Ht). reflexivity. }
  assert (streamAIResponse (Resolved r) tok
          = (throughTrace cs ++ [EvReleaseLock; EvMarkdown (failureNotice e)],
             Normal)) as Hrun.
  { unfold streamAIResponse. rewrite Hblock. cbn [tryCatch emit fst snd].
    now rewrite <- app_assoc. }
  split; [exact (whileLoop_through tok cs Closed Hs 0 Ht)|].
  split; [exact Hblock|]. split; [exact Hrun|].
  split; [exact (throughTrace_increments cs Hs)|].
  rewrite Hrun. cbn [fst]. rewrite reads_app, throughTrace_reads. simpl. lia.
Qed.

Lemma read_failure_is_caught_and_reported_witness :
  streamAIResponse
    (Resolved (mkResponse 200 (js "OK")
                 (Some (mkBody [bytes (deltaFrame "Hel" ++ NL)]
                          (Errored (mkError (js "terminated")))))))
    never
  = ([EvCheck false; EvRead; EvMarkdown (VString (js "Hel"));
      EvCheck false; EvRead; EvReleaseLock;
      EvMarkdown
        (VString (js "Failed to get response from AI service: terminated"))],
     Normal).
Proof.
  refine (proj1 (proj2 (proj2
    (read_failure_is_caught_and_reported never
       (mkResponse 200 (js "OK")
          (Some (mkBody [bytes (deltaFrame "Hel" ++ NL)]
                   (Errored (mkError (js "terminated"))))))
       [bytes (deltaFrame "Hel" ++ NL)] (mkError (js "terminated"))
       _ _ _ _)))).
  - reflexivity.
  - reflexivity.
  - intros n _. reflexivity.
  - intros line Hin. vm_compute in Hin.
    destruct Hin as [<- | []]. vm_compute. reflexivity.
Defined.

(* ------------------------------------------------------------------ *)
(** ** Cancellation *)

Lemma quiet_checked t : quiet t -> checkedReads t = true.
Proof.
  intros H. rewrite <- (app_nil_r t). now rewrite quiet_checkedReads.
Qed.

Lemma checkedReads_app_quiet t' :
  quiet t' ->
  forall t, checkedReads t = true -> checkedReads (t ++ t') = true.
Proof.
  intros Hq.
  assert (forall t,
            (checkedReads t = true -> checkedReads (t ++ t') = true)
            /\ (forall e, checkedReads (e :: t) = true ->
                          checkedReads (e :: t ++ t') = true)) as H.
  { induction t as [|e' t [IH1 IH2]].
    - split; [intros _; now apply quiet_checked|].
      intros [[]| | | |]; simpl; intros H; try discriminate;
        try exact Hq; now apply quiet_checked.
    - split; [apply IH2|].
      intros [[]| | | |]; try (exact (IH2 e')); try discriminate.
      + cbn [checkedReads]. rewrite forallb_app.
        intros ->. now rewrite Hq.
      + destruct e'; cbn [checkedReads app]; try discriminate.
        exact IH1. }
  intros t. apply H.
Qed.

Lemma whileLoop_checkedReads tok cs e :
  forall i, checkedReads (fst (whileLoop tok i cs e)) = true.
Proof.
  induction cs as [|value rest IH]; intros i.
  - destruct (tok i) eqn:H.
    + now rewrite whileLoop_cancelled.
    + now rewrite whileLoop_end.
  - destruct (tok i) eqn:H.
    + now rewrite whileLoop_cancelled.
    + rewrite whileLoop_chunk by exact H.
      specialize (IH (S i)).
      pose proof (forLines_quiet (linesOf (decode value))) as Hq.
      fold (onChunk value) in Hq.
      destruct (onChunk value) as [t []],
               (whileLoop tok (S i) rest e) as [t' c'];
        cbn [seq fst snd app checkedReads] in *;
        try (now apply quiet_checked).
      now rewrite quiet_checkedReads.
Qed.

Lemma streamAIResponse_checkedReads fetched tok :
  checkedReads (fst (streamAIResponse fetched tok)) = true.
Proof.
  assert (checkedReads (fst (tryBlock fetched tok)) = true) as Hb.
  { unfold tryBlock. destruct fetched as [e|r]; [reflexivity|].
    destruct (ok r); [|reflexivity].
    destruct (body r) as [[cs e]|]; [|reflexivity].
    rewrite tryFinally_release. cbn [fst chunks ending].
    apply checkedReads_app_quiet; [reflexivity|].
    apply whileLoop_checkedReads. }
  unfold streamAIResponse.
  destruct (tryBlock fetched tok) as [t []]; try exact Hb.
  cbn [tryCatch emit fst] in *.
  now apply checkedReads_app_quiet.
Qed.

Lemma outcome_check_read m :
  outcome (([EvCheck false; EvRead], Normal) ;; m) = outcome m.
Proof. destruct m; reflexivity. Qed.

(** A loop on a token never cancelled hands over what the frames of its
    chunks hold, taken in order as one list of lines. *)
Lemma whileLoop_never_outcome cs e :
  forall i,
    outcome (whileLoop never i cs e)
    = outcome (forLines (framesOf cs) ;; ([], endCompletion e)).
Proof.
  induction cs as [|value rest IH]; intros i.
  - rewrite whileLoop_end by reflexivity. cbn [framesOf flat_map forLines].
    now rewrite seq_skip_l.
  - rewrite whileLoop_chunk by reflexivity.
    rewrite framesOf_cons, forLines_app, seq_assoc, outcome_check_read.
    apply outcome_seq_congr; [reflexivity|]. apply IH.
Qed.

(** When the token is first seen cancelled after [k] chunks, the loop
    hands over what the frames of those [k] chunks hold. *)
Lemma whileLoop_cancel_outcome tok e :
  forall cs i k,
    (k <= List.length cs)%nat ->
    (forall j, (j < k)%nat -> tok (i + j)%nat = false) ->
    tok (i + k)%nat = true ->
    outcome (whileLoop tok i cs e)
    = outcome (forLines (framesOf (firstn k cs))).
Proof.
  induction cs as [|value rest IH]; intros i k Hk Hlt Hat.
  - assert (k = 0)%nat as -> by (simpl in Hk; lia).
    rewrite Nat.add_0_r in Hat. now rewrite whileLoop_cancelled.
  - destruct k as [|k].
    + rewrite Nat.add_0_r in Hat. now rewrite whileLoop_cancelled.
    + rewrite whileLoop_chunk
        by (rewrite <- (Nat.add_0_r i); apply Hlt; lia).
      cbn [firstn]. rewrite framesOf_cons, forLines_app, outcome_check_read.
      apply outcome_seq_congr; [reflexivity|].
      apply IH.
      * simpl in Hk. lia.
      * intros j Hj. replace (S i + j)%nat with (i + S j)%nat by lia.
        apply Hlt. lia.
      * now replace (S i + k)%nat with (i + S k)%nat by lia.
Qed.

(** C5, as stated, fails: a signal raised before any chunk has arrived
    does not always give an empty sequence. The token is read at the top
    of the loop only and a read once started is awaited to its end: when
    the signal comes after the first test, while the first read is
    pending, the chunk of that read is still decoded and its increment
    handed over; the signal is seen at the next test. *)
Lemma signal_during_first_read_is_late :
  let tok : token := fun n => Nat.leb 1 n in
  let fetched :=
    okResponse [bytes (deltaFrame "Hel" ++ NL);
                bytes (deltaFrame "late" ++ NL)] Closed in
  tok 0%nat = false
  /\ tok 1%nat = true
  /\ streamAIResponse fetched tok
     = ([EvCheck false; EvRead; EvMarkdown (VString (js "Hel"));
         EvCheck true; EvReleaseLock],
        Normal)
  /\ increments (fst (streamAIResponse fetched tok)) <> [].
Proof.
  cbv zeta. split; [reflexivity|]. split; [reflexivity|].
  split; [vm_compute; reflexivity|]. vm_compute. discriminate.
Qed.

(** C5, amended. The token is read once at the top of each turn of the
    loop, right before the read of the next chunk: in every run each read
    follows a check that found the token not cancelled, each such check is
    followed by its read, and nothing is checked or read after a check
    that found it cancelled. If the token is cancelled when the loop is
    entered, nothing is read and no increment is produced; the reader is
    released. A signal that comes later, while a read is pending (the
    first read included) or while a chunk is decoded, is seen at the next
    test: if the token is first found cancelled after [k] chunks were
    received, the run hands over everything the frames of those [k]
    chunks hold, the last chunk included in full, and nothing of a later
    chunk; it ends without an error. *)
Theorem cancellation_checked_between_chunks
    (tok : token) (r : response) (cs : list chunk) (ending : stream_end) :
  ok r = true ->
  body r = Some (mkBody cs ending) ->
  checkedReads (fst (streamAIResponse (Resolved r) tok)) = true
  /\ (tok 0%nat = true ->
      streamAIResponse (Resolved r) tok
      = ([EvCheck true; EvReleaseLock], Normal))
  /\ (forall k,
        (k <= List.length cs)%nat ->
        (forall j, (j < k)%nat -> tok j = false) ->
        tok k = true ->
        outcome (streamAIResponse (Resolved r) tok)
        = outcome (forLines (framesOf (firstn k cs)))
        /\ threw (snd (streamAIResponse (Resolved r) tok)) = false).
Proof.
  intros Hok Hb.
  split; [apply streamAIResponse_checkedReads|]. split.
  - intros H0. unfold streamAIResponse.
    rewrite (tryBlock_accepted r tok cs ending Hok Hb).
    now rewrite whileLoop_cancelled.
  - intros k Hk Hlt Hat.
    pose proof (whileLoop_cancel_outcome tok ending cs 0 k Hk Hlt Hat) as Ho.
    assert (threw (snd (tryBlock (Resolved r) tok)) = false) as Hn.
    { rewrite (tryBlock_accepted r tok cs ending Hok Hb).
      rewrite tryFinally_release. cbn [snd].
      assert (snd (whileLoop tok 0 cs ending)
              = snd (forLines (framesOf (firstn k cs)))) as ->
          by (now injection Ho).
      apply forLines_no_throw. }
    unfold streamAIResponse. rewrite tryCatch_no_throw by exact Hn.
    split; [|exact Hn].
    rewrite (tryBlock_accepted r tok cs ending Hok Hb).
    now rewrite outcome_release.
Qed.

Lemma cancellation_checked_between_chunks_witness :
  outcome
    (streamAIResponse
       (okResponse [bytes (deltaFrame "Hel" ++ NL ++ deltaFrame "lo" ++ NL);
                    bytes (deltaFrame "late" ++ NL)] Closed)
       (fun n => Nat.leb 1 n))
  = ([VString (js "Hel"); VString (js "lo")], Normal).
Proof.
  refine (proj1 (proj2 (proj2
    (cancellation_checked_between_chunks (fun n => Nat.leb 1 n)
       (mkResponse 200 (js "OK")
          (Some (mkBody
                   [bytes (deltaFrame "Hel" ++ NL ++ deltaFrame "lo" ++ NL);
                    bytes (deltaFrame "late" ++ NL)] Closed)))
       [bytes (deltaFrame "Hel" ++ NL ++ deltaFrame "lo" ++ NL);
        bytes (deltaFrame "late" ++ NL)] Closed _ _)) 1%nat _ _ _)).
  - reflexivity.
  - reflexivity.
  - simpl. lia.
  - intros j Hj. assert (j = 0)%nat as -> by lia. reflexivity.
  - reflexivity.
Defined.

(* ------------------------------------------------------------------ *)
(** ** Frames that yield nothing *)

(** Replacing one chunk by another that does the same leaves the run the
    same; replacing it by one of the same outcome leaves the outcome. *)
Lemma whileLoop_chunk_eq tok value value' after e :
  onChunk value = onChunk value' ->
  forall before i,
    whileLoop tok i (before ++ value :: after) e
    = whileLoop tok i (before ++ value' :: after) e.
Proof.
  intros H. induction before as [|b before IH]; intros i; cbn [app].
  - destruct (tok i) eqn:Ht.
    + now rewrite !whileLoop_cancelled.
    + rewrite !whileLoop_chunk by exact Ht. now rewrite H.
  - destruct (tok i) eqn:Ht.
    + now rewrite !whileLoop_cancelled.
    + rewrite !whileLoop_chunk by exact Ht. now rewrite IH.
Qed.

Lemma whileLoop_chunk_outcome tok value value' after e :
  outcome (onChunk value) = outcome (onChunk value') ->
  forall before i,
    outcome (whileLoop tok i (before ++ value :: after) e)
    = outcome (whileLoop tok i (before ++ value' :: after) e).
Proof.
  intros H. induction before as [|b before IH]; intros i; cbn [app].
  - destruct (tok i) eqn:Ht.
    + now rewrite !whileLoop_cancelled.
    + rewrite !whileLoop_chunk by exact Ht.
      apply outcome_seq_congr; [reflexivity|].
      now apply outcome_seq_congr.
  - destruct (tok i) eqn:Ht.
    + now rewrite !whileLoop_cancelled.
    + rewrite !whileLoop_chunk by exact Ht.
      apply outcome_seq_congr; [reflexivity|].
      apply outcome_seq_congr; [reflexivity|]. apply IH.
Qed.

(** A line whose body hands over nothing and completes normally can be
    taken out of the lines without a change of outcome. *)
Lemma forLines_drop_outcome l1 line l2 :
  outcome (forBody line) = ([], Normal) ->
  outcome (forLines (l1 ++ line :: l2)) = outcome (forLines (l1 ++ l2)).
Proof.
  intros H. rewrite !forLines_app. cbn [forLines].
  apply outcome_seq_congr; [reflexivity|].
  rewrite <- (seq_skip_l (forLines l2)) at 2.
  apply outcome_seq_congr; [exact H | reflexivity].
Qed.

Lemma forLines_drop l1 line l2 :
  forBody line = skip -> forLines (l1 ++ line :: l2) = forLines (l1 ++ l2).
Proof.
  intros H. rewrite !forLines_app. cbn [forLines].
  now rewrite H, seq_skip_l.
Qed.

Lemma forBody_data line :
  startsWith line DATA_PREFIX = true ->
  slice 6 line <> DONE ->
  forBody line =
  match parseContent (slice 6 line) with
  | inr content => if ToBoolean content then emit (EvMarkdown content) else skip
  | inl parseError => emit (EvWarn parseError)
  end.
Proof.
  intros Hp Hd. unfold forBody. rewrite Hp.
  destruct (jsstring_eqb (slice 6 line) DONE) eqn:E; [|reflexivity].
  apply jsstring_eqb_eq in E. contradiction.
Qed.

Lemma DONE_is_not_JSON : JSON_parse DONE = None.
Proof. vm_compute. reflexivity. Qed.

Lemma parsed_not_DONE data parsed : JSON_parse data = Some parsed -> data <> DONE.
Proof. intros H ->. rewrite DONE_is_not_JSON in H. discriminate. Qed.

(** A frame whose payload is not valid JSON (and is not the sentinel) is
    answered with a warning only. The chunk that holds it, and the whole
    run, hand over the same increments in the same order, and complete
    the same way, as with that frame taken out. *)
Lemma malformed_frame_drop
    (tok : token) (i : nat) (before after : list chunk)
    (value value' : chunk) (ending : stream_end)
    (l1 l2 : list jsstring) (line : jsstring) :
  startsWith line DATA_PREFIX = true ->
  slice 6 line <> DONE ->
  JSON_parse (slice 6 line) = None ->
  linesOf (decode value) = l1 ++ line :: l2 ->
  linesOf (decode value') = l1 ++ l2 ->
  forBody line = emit (EvWarn SyntaxError)
  /\ outcome (onChunk value) = outcome (onChunk value')
  /\ threw (snd (onChunk value)) = false
  /\ outcome (whileLoop tok i (before ++ value :: after) ending)
     = outcome (whileLoop tok i (before ++ value' :: after) ending).
Proof.
  intros Hp Hd Hj Hl Hl'.
  assert (forBody line = emit (EvWarn SyntaxError)) as Hb.
  { rewrite (forBody_data line Hp Hd). unfold parseContent. now rewrite Hj. }
  assert (outcome (onChunk value) = outcome (onChunk value')) as Ho.
  { unfold onChunk. rewrite Hl, Hl'. apply forLines_drop_outcome.
    now rewrite Hb. }
  repeat split; try assumption.
  - apply onChunk_no_throw.
  - now apply whileLoop_chunk_outcome.
Qed.

(** C9. A frame whose delta holds the empty string as its content does
    nothing at all: nothing is handed to the sink and the loop goes on
    with the next line. The lines of a chunk, and the whole run, are the
    same with and without that frame. *)
Theorem empty_content_is_suppressed
    (tok : token) (i : nat) (before after : list chunk)
    (v v' : chunk) (ending : stream_end)
    (l1 l2 : list jsstring) (line : jsstring) (parsed : value) :
  startsWith line DATA_PREFIX = true ->
  JSON_parse (slice 6 line) = Some parsed ->
  contentOf parsed = inr (VString []) ->
  linesOf (decode v) = l1 ++ line :: l2 ->
  linesOf (decode v') = l1 ++ l2 ->
  forBody line = skip
  /\ (forall rest, forLines (line :: rest) = forLines rest)
  /\ onChunk v = onChunk v'
  /\ whileLoop tok i (before ++ v :: after) ending
     = whileLoop tok i (before ++ v' :: after) ending.
Proof.
  intros Hp Hj Hc Hl Hl'.
  assert (forBody line = skip) as Hb.
  { rewrite (forBody_data line Hp (parsed_not_DONE _ _ Hj)).
    unfold parseContent. now rewrite Hj, Hc. }
  assert (onChunk v = onChunk v') as Ho.
  { unfold onChunk. rewrite Hl, Hl'. now apply forLines_drop. }
  repeat split; try assumption.
  - intros rest. cbn [forLines]. now rewrite Hb, seq_skip_l.
  - now apply whileLoop_chunk_eq.
Qed.

Lemma empty_content_is_suppressed_witness :
  whileLoop never 0
    ([] ++ bytes (deltaFrame "Hel" ++ NL ++ deltaFrame "" ++ NL
                  ++ deltaFrame "lo" ++ NL) :: []) Closed
  = whileLoop never 0
      ([] ++ bytes (deltaFrame "Hel" ++ NL ++ deltaFrame "lo" ++ NL) :: [])
      Closed.
Proof.
  refine (proj2 (proj2 (proj2
    (empty_content_is_suppressed never 0 [] []
       (bytes (deltaFrame "Hel" ++ NL ++ deltaFrame "" ++ NL
               ++ deltaFrame "lo" ++ NL))
       (bytes (deltaFrame "Hel" ++ NL ++ deltaFrame "lo" ++ NL))
       Closed [js (deltaFrame "Hel")] [js (deltaFrame "lo")]
       (js (deltaFrame ""))
       (VObject
          [(js "choices",
            VArray [VObject [(js "delta",
                              VObject [(js "content", VString [])])]])])
       _ _ _ _ _)))).
  - reflexivity.
  - vm_compute. reflexivity.
  - reflexivity.
  - vm_compute. reflexivity.
  - vm_compute. reflexivity.
Defined.

(* ------------------------------------------------------------------ *)
(** ** Deltas without content *)

Lemma contentOf_null parsed :
  nullish parsed = true -> contentOf parsed = inl TypeError.
Proof. unfold contentOf. now intros ->. Qed.

Lemma contentOf_lacking parsed :
  nullish parsed = false -> ~ hasContentPath parsed ->
  contentOf parsed = inr VUndefined.
Proof.
  intros Hn Hlack. unfold contentOf. rewrite Hn.
  destruct (nullish (getMember "choices" parsed)) eqn:H1; [reflexivity|].
  destruct (nullish (getFirst (getMember "choices" parsed))) eqn:H2;
    [reflexivity|].
  destruct (nullish (getMember "delta"
                       (getFirst (getMember "choices" parsed)))) eqn:H3;
    [reflexivity|].
  destruct (getMember "content"
              (getMember "delta" (getFirst (getMember "choices" parsed))))
    eqn:H4; try reflexivity;
    exfalso; apply Hlack;
    apply (ContentAt parsed _ _ _ eq_refl H1 eq_refl H2 eq_refl H3);
    rewrite H4; discriminate.
Qed.

(** The extraction gives a value or a TypeError for whatever it is
    given; with the handler around it the loop body cannot fail on a
    payload that parses. *)
Lemma forBody_parsed line parsed :
  startsWith line DATA_PREFIX = true ->
  JSON_parse (slice 6 line) = Some parsed ->
  forBody line =
  match contentOf parsed with
  | inr content => if ToBoolean content then emit (EvMarkdown content) else skip
  | inl parseError => emit (EvWarn parseError)
  end.
Proof.
  intros Hp Hj. rewrite (forBody_data line Hp (parsed_not_DONE _ _ Hj)).
  unfold parseContent. now rewrite Hj.
Qed.

(** Deltas without choices, with no choice, without a delta, without
    content, and values that are no objects. *)
Example lacking_shapes_ex :
  map (fun payload => forBody (js ("data: " ++ payload)))
      ["{}";
       "{" ++ quoted "choices" ++ ":[]}";
       "{" ++ quoted "choices" ++ ":[{}]}";
       "{" ++ quoted "choices" ++ ":[{" ++ quoted "delta" ++ ":{}}]}";
       "{" ++ quoted "choices" ++ ":null}";
       "{" ++ quoted "choices" ++ ":[null]}";
       "5"; "[]"; quoted "text"; "true"]%string
  = repeat skip 10.
Proof. vm_compute. reflexivity. Qed.

Example null_payload_ex :
  forBody (js "data: null") = emit (EvWarn TypeError).
Proof. vm_compute. reflexivity. Qed.

(** C10. For a frame whose payload parses but in which the path
    choices[0].delta.content leads to no value, the extraction is
    total: the loop body does nothing at all and completes normally, so
    the loop goes on with the next frame. (On the payload [null] the
    first access throws a TypeError inside the inner [try]; its handler
    turns it into a warning, and the body completes normally all the
    same.) In both cases no increment is produced, nothing is thrown, and
    the chunk and the run have the outcome they have without the frame. *)
Theorem missing_content_is_skipped
    (tok : token) (i : nat) (before after : list chunk)
    (v v' : chunk) (ending : stream_end)
    (l1 l2 : list jsstring) (line : jsstring) (parsed : value) :
  startsWith line DATA_PREFIX = true ->
  JSON_parse (slice 6 line) = Some parsed ->
  ~ hasContentPath parsed ->
  linesOf (decode v) = l1 ++ line :: l2 ->
  linesOf (decode v') = l1 ++ l2 ->
  (nullish parsed = false -> forBody line = skip)
  /\ (nullish parsed = true -> forBody line = emit (EvWarn TypeError))
  /\ outcome (forBody line) = ([], Normal)
  /\ outcome (onChunk v) = outcome (onChunk v')
  /\ outcome (whileLoop tok i (before ++ v :: after) ending)
     = outcome (whileLoop tok i (before ++ v' :: after) ending).
Proof.
  intros Hp Hj Hlack Hl Hl'.
  pose proof (forBody_parsed line parsed Hp Hj) as Hb.
  assert (nullish parsed = false -> forBody line = skip) as H1.
  { intros Hn. now rewrite Hb, (contentOf_lacking parsed Hn Hlack). }
  assert (nullish parsed = true -> forBody line = emit (EvWarn TypeError))
    as H2.
  { intros Hn. now rewrite Hb, (contentOf_null parsed Hn). }
  assert (outcome (forBody line) = ([], Normal)) as H3.
  { destruct (nullish parsed); [rewrite H2 | rewrite H1]; reflexivity. }
  assert (outcome (onChunk v) = outcome (onChunk v')) as H4.
  { unfold onChunk. rewrite Hl, Hl'. now apply forLines_drop_outcome. }
  repeat split; try assumption.
  now apply whileLoop_chunk_outcome.
Qed.

Lemma missing_content_is_skipped_witness :
  forBody (js ("data: {" ++ quoted "choices" ++ ":[{}]}")) = skip.
Proof.
  refine (proj1
    (missing_content_is_skipped never 0 [] []
       (bytes ("data: {" ++ quoted "choices" ++ ":[{}]}" ++ NL
               ++ deltaFrame "lo" ++ NL))
       (bytes (deltaFrame "lo" ++ NL))
       Closed [] [js (deltaFrame "lo")]
       (js ("data: {" ++ quoted "choices" ++ ":[{}]}"))
       (VObject [(js "choices", VArray [VObject []])])
       _ _ _ _ _) _).
  - reflexivity.
  - vm_compute. reflexivity.
  - intros [choices first delta H1 _ H2 _ H3 Hn _].
    vm_compute in H1. subst choices. vm_compute in H2. subst first.
    vm_compute in H3. subst delta. discriminate.
  - vm_compute. reflexivity.
  - vm_compute. reflexivity.
  - reflexivity.
Defined.

(* ------------------------------------------------------------------ *)
(** ** Blank lines and lines without the prefix *)

Lemma trimStart_nil_iff s :
  trimStart s = [] <-> forallb isStrWhiteSpace s = true.
Proof.
  induction s as [|c s IH]; simpl; [tauto|].
  destruct (isStrWhiteSpace c); simpl; [exact IH|].
  split; discriminate.
Qed.


Lemma forallb_rev_ws s :
  forallb isStrWhiteSpace (rev s) = forallb isStrWhiteSpace s.
Proof.
  induction s as [|c s IH]; simpl; [reflexivity|].
  rewrite forallb_app, IH. simpl. rewrite andb_true_r. apply andb_comm.
Qed.

Lemma trim_nil_iff s : trim s = [] <-> forallb isStrWhiteSpace s = true.
Proof.
  unfold trim, trimEnd. split.
  - intros H. apply (f_equal (@rev N)) in H. rewrite rev_involutive in H.
    simpl in H. apply trimStart_nil_iff in H. rewrite forallb_rev_ws in H.
    destruct (forallb isStrWhiteSpace s) eqn:E; [reflexivity|].
    exfalso. clear -H E. induction s as [|c s IH]; simpl in *;
      [discriminate|].
    destruct (isStrWhiteSpace c) eqn:Ec; simpl in *; [auto|].
    rewrite Ec in H. discriminate.
  - intros H. apply trimStart_nil_iff in H. now rewrite H.
Qed.

Lemma startsWith_prefix p s : startsWith (p ++ s) p = true.
Proof.
  induction p as [|x p IH]; simpl; [now destruct s|].
  now rewrite N.eqb_refl, IH.
Qed.











(* ------------------------------------------------------------------ *)
(** ** Decoding chunk by chunk *)

Lemma utf8_lead_wf b : utf8_wf (fst (utf8_lead b)).
Proof. unfold utf8_lead. split_ifs; simpl; lia. Qed.

Lemma utf8_step_wf st b : utf8_wf st -> utf8_wf (fst (utf8_step st b)).
Proof.
  destruct st as [|cp needed lower upper]; simpl; [intros _; apply utf8_lead_wf|].
  intros H. destruct ((lower <=? b) && (b <=? upper)).
  - destruct needed as [|[|n]]; simpl; lia.
  - pose proof (utf8_lead_wf b). now destruct (utf8_lead b).
Qed.

(** An ASCII byte is given out as it is and leaves the decoder in its
    start state, whatever was pending. *)
Lemma utf8_step_ascii st b :
  utf8_wf st -> b <= 0x7F ->
  exists pre, utf8_step st b = (Utf8Start, pre ++ [b]).
Proof.
  intros Hwf Hb.
  assert (utf8_lead b = (Utf8Start, [b])) as Hl.
  { unfold utf8_lead. now rewrite (proj2 (N.leb_le _ _) Hb). }
  destruct st as [|cp needed lower upper]; simpl.
  - exists []. exact Hl.
  - simpl in Hwf.
    assert ((lower <=? b) = false) as -> by (apply N.leb_gt; lia).
    simpl. rewrite Hl. now exists [REPLACEMENT].
Qed.

Lemma utf8_run_ascii b r :
  b <= 0x7F ->
  forall a st, utf8_wf st ->
    exists pre,
      utf8_run st (a ++ [b]) = pre ++ [b]
      /\ utf8_run st (a ++ b :: r) = pre ++ b :: utf8_run Utf8Start r.
Proof.
  intros Hb. induction a as [|x a IH]; intros st Hwf; cbn [app utf8_run].
  - destruct (utf8_step_ascii st b Hwf Hb) as [pre ->].
    exists pre. split.
    + cbn [utf8_run]. apply app_nil_r.
    + now rewrite <- app_assoc.
  - pose proof (utf8_step_wf st x Hwf) as Hwf'.
    destruct (utf8_step st x) as [st' out]. simpl in Hwf'.
    destruct (IH st' Hwf') as (pre & -> & ->).
    exists (out ++ pre). now rewrite !app_assoc.
Qed.

(** Only the bytes EF BB BF decode to a leading byte order mark. *)
Lemma utf8_head_BOM l :
  hd_error (utf8_run Utf8Start l) = Some BOM ->
  exists r, l = 0xEF :: 0xBB :: 0xBF :: r.
Proof.
  unfold BOM.
  destruct l as [|n1 l]; [discriminate|].
  cbn [utf8_run utf8_step]. unfold utf8_lead.
  destruct (n1 <=? 0x7F) eqn:E1.
  { simpl. intros [= ->]. discriminate. }
  destruct ((0xC2 <=? n1) && (n1 <=? 0xDF)) eqn:E2.
  { destruct l as [|n2 l]; [discriminate|].
    cbn [utf8_run utf8_step app].
    destruct ((0x80 <=? n2) && (n2 <=? 0xBF)) eqn:E3.
    - simpl. intros [= H]. bool_facts. lia.
    - destruct (utf8_lead n2). discriminate. }
  destruct ((0xE0 <=? n1) && (n1 <=? 0xEF)) eqn:E3.
  { destruct l as [|n2 l]; [discriminate|].
    cbn [utf8_run utf8_step app].
    match goal with |- context [if ?b then _ else _] => destruct b eqn:E4 end.
    2:{ destruct (utf8_lead n2). discriminate. }
    destruct l as [|n3 l]; [discriminate|].
    cbn [utf8_run utf8_step app].
    destruct ((0x80 <=? n3) && (n3 <=? 0xBF)) eqn:E5.
    2:{ destruct (utf8_lead n3). discriminate. }
    simpl. intros [= H]. exists l.
    assert (0x80 <= n2 <= 0xBF).
    { apply andb_true_iff in E4. destruct E4 as [Ea Eb].
      apply N.leb_le in Eb.
      destruct (n1 =? 0xE0), (n1 =? 0xED); apply N.leb_le in Ea; lia. }
    bool_facts.
    assert (n1 = 0xEF) by lia. assert (n2 = 0xBB) by lia.
    assert (n3 = 0xBF) by lia. now subst. }
  destruct ((0xF0 <=? n1) && (n1 <=? 0xF4)) eqn:E4.
  2:{ simpl. intros [= H]. }
  destruct l as [|n2 l]; [discriminate|].
  cbn [utf8_run utf8_step app].
  match goal with |- context [if ?b then _ else _] => destruct b eqn:E5 end.
  2:{ destruct (utf8_lead n2). discriminate. }
  destruct l as [|n3 l]; [discriminate|].
  cbn [utf8_run utf8_step app].
  destruct ((0x80 <=? n3) && (n3 <=? 0xBF)) eqn:E6.
  2:{ destruct (utf8_lead n3). discriminate. }
  destruct l as [|n4 l]; [discriminate|].
  cbn [utf8_run utf8_step app].
  destruct ((0x80 <=? n4) && (n4 <=? 0xBF)) eqn:E7.
  2:{ destruct (utf8_lead n4). discriminate. }
  simpl. intros [= H]. exfalso.
  assert ((if n1 =? 0xF0 then 0x90 else 0x80) <= n2) as Hlo.
  { apply andb_true_iff in E5. destruct E5 as [Ea _]. now apply N.leb_le in Ea. }
  destruct (N.eqb_spec n1 0xF0); bool_facts; lia.
Qed.

Lemma to_N_inj a b : Byte.to_N a = Byte.to_N b -> a = b.
Proof.
  intros H. apply (f_equal Byte.of_N) in H.
  rewrite !Byte.of_to_N in H. congruence.
Qed.

Lemma stripBOM_codePoints c :
  startsWithBOM c = false -> stripBOM (codePoints c) = codePoints c.
Proof.
  intros H. unfold stripBOM.
  destruct (codePoints c) as [|x r] eqn:E; [reflexivity|].
  destruct (N.eqb_spec x BOM) as [->|]; [exfalso|reflexivity].
  destruct (utf8_head_BOM (map Byte.to_N c)) as [r' Hr].
  { unfold codePoints in E. now rewrite E. }
  destruct c as [|b1 [|b2 [|b3 c]]]; try discriminate.
  injection Hr as H1 H2 H3 _.
  apply (to_N_inj b1 xef) in H1. apply (to_N_inj b2 xbb) in H2.
  apply (to_N_inj b3 xbf) in H3. subst. discriminate.
Qed.

Lemma lineTerminated_inv c :
  lineTerminated c = true -> exists p, c = p ++ [x0a].
Proof.
  unfold lineTerminated. intros H. exists (rev (tl (rev c))).
  rewrite <- (rev_involutive c) at 1.
  destruct (rev c) as [|b l]; [discriminate|].
  destruct b; try discriminate. reflexivity.
Qed.

Lemma startsWithBOM_app c more :
  lineTerminated c = true -> startsWithBOM (c ++ more) = startsWithBOM c.
Proof.
  intros H. destruct c as [|b1 [|b2 [|b3 c]]].
  - discriminate.
  - destruct b1; try discriminate. reflexivity.
  - assert (b2 = x0a) as ->.
    { destruct (lineTerminated_inv _ H) as [[|p1 [|p2 p]] E];
        try discriminate; try (now injection E).
      injection E as _ _ E. now destruct p. }
    destruct b1; reflexivity.
  - reflexivity.
Qed.

(** After a chunk that ends with a line feed the code points of what
    follows are those it has on its own. *)
Lemma codePoints_app c d :
  lineTerminated c = true ->
  exists pre, codePoints c = pre ++ [LF]
              /\ codePoints (c ++ d) = codePoints c ++ codePoints d.
Proof.
  intros H. destruct (lineTerminated_inv c H) as [p ->].
  unfold codePoints. rewrite <- app_assoc, !map_app. cbn [map app].
  change (Byte.to_N x0a) with LF.
  destruct (utf8_run_ascii LF (map Byte.to_N d) ltac:(unfold LF; lia)
              (map Byte.to_N p) Utf8Start I) as (pre & E1 & E2).
  exists pre. rewrite E1, E2. split; [reflexivity|].
  now rewrite <- app_assoc.
Qed.

Lemma decode_app c d :
  lineTerminated c = true -> startsWithBOM d = false ->
  exists t, decode c = t ++ [LF] /\ decode (c ++ d) = decode c ++ decode d.
Proof.
  intros Hc Hd. destruct (codePoints_app c d Hc) as (pre & E & Eapp).
  unfold decode. rewrite Eapp, (stripBOM_codePoints d Hd), E.
  assert (exists pre', stripBOM (pre ++ [LF]) = pre' ++ [LF]
                       /\ forall more, stripBOM ((pre ++ [LF]) ++ more)
                                       = (pre' ++ [LF]) ++ more)
    as (pre' & E1 & E2).
  { destruct pre as [|x pre]; [exists []; now split|].
    cbn [app stripBOM]. destruct (x =? BOM);
      [exists pre | exists (x :: pre)]; now split. }
  rewrite E1, E2, !flat_map_app. cbn [flat_map].
  exists (flat_map utf16_units pre'). split; reflexivity.
Qed.

(** ** Lines of a text cut at a line end *)

Lemma split_cons sep t : exists seg segs, split sep t = seg :: segs.
Proof.
  induction t as [|c t (seg & segs & IH)]; cbn [split]; [now eexists; eexists|].
  destruct (c =? sep); [now eexists; eexists|].
  rewrite IH. now eexists; eexists.
Qed.

Lemma split_app_sep sep t u :
  split sep (t ++ sep :: u) = split sep t ++ split sep u.
Proof.
  induction t as [|c t IH]; cbn [app split].
  - now rewrite N.eqb_refl.
  - destruct (c =? sep); [now rewrite IH|].
    rewrite IH. destruct (split_cons sep t) as (seg & segs & ->).
    reflexivity.
Qed.

Lemma linesOf_app t u :
  linesOf ((t ++ [LF]) ++ u) = linesOf (t ++ [LF]) ++ linesOf u.
Proof.
  unfold linesOf. rewrite <- app_assoc. cbn [app].
  rewrite split_app_sep, (split_app_sep LF t []), !filter_app.
  cbn [split filter trim trimStart trimEnd rev app truthyString].
  now rewrite app_nil_r.
Qed.

Lemma splitAtLineEnds_cons c c' rest :
  splitAtLineEnds (c :: c' :: rest) = true ->
  lineTerminated c = true /\ startsWithBOM c' = false
  /\ splitAtLineEnds (c' :: rest) = true.
Proof.
  cbn [splitAtLineEnds]. rewrite !andb_true_iff, negb_true_iff. tauto.
Qed.

Lemma splitAtLineEnds_no_BOM c rest :
  startsWithBOM c = false -> splitAtLineEnds (c :: rest) = true ->
  startsWithBOM (List.concat (c :: rest)) = false.
Proof.
  intros Hb H. destruct rest as [|c' rest].
  - cbn [List.concat]. now rewrite app_nil_r.
  - apply splitAtLineEnds_cons in H. destruct H as (Hc & _ & _).
    cbn [List.concat]. now rewrite startsWithBOM_app.
Qed.

(** With the boundaries on line ends, the candidate frames of the chunks
    are those of the whole stream taken as one chunk. *)
Lemma framesOf_concat cs :
  splitAtLineEnds cs = true -> framesOf cs = linesOf (decode (List.concat cs)).
Proof.
  induction cs as [|c rest IH]; intros H; [reflexivity|].
  destruct rest as [|c' rest].
  - cbn [framesOf flat_map List.concat]. now rewrite !app_nil_r.
  - pose proof (splitAtLineEnds_cons _ _ _ H) as (Hc & Hb & Hrest).
    rewrite framesOf_cons, (IH Hrest).
    change (List.concat (c :: c' :: rest)) with (c ++ List.concat (c' :: rest)).
    destruct (decode_app c (List.concat (c' :: rest)) Hc
                (splitAtLineEnds_no_BOM _ _ Hb Hrest)) as (t & Et & ->).
    rewrite Et. now rewrite linesOf_app.
Qed.

Lemma outcome_tryCatch m m' h :
  outcome m = outcome m' -> outcome (tryCatch m h) = outcome (tryCatch m' h).
Proof.
  destruct m as [t c], m' as [t' c']. unfold outcome. cbn [fst snd].
  intros [= Ht <-]. destruct c; cbn [tryCatch fst snd]; try congruence.
  now rewrite !increments_app, Ht.
Qed.

Lemma outcome_streamAIResponse cs cs' e :
  outcome (whileLoop never 0 cs e) = outcome (whileLoop never 0 cs' e) ->
  outcome (streamAIResponse (okResponse cs e) never)
  = outcome (streamAIResponse (okResponse cs' e) never).
Proof.
  intros H. unfold streamAIResponse. apply outcome_tryCatch.
  unfold okResponse.
  rewrite (tryBlock_accepted (mkResponse 200 (js "OK") (Some (mkBody cs e)))
             never cs e eq_refl eq_refl).
  rewrite (tryBlock_accepted (mkResponse 200 (js "OK") (Some (mkBody cs' e)))
             never cs' e eq_refl eq_refl).
  now rewrite !outcome_release.
Qed.

(* ------------------------------------------------------------------ *)
(** ** Chunk boundaries *)

(** C1, as stated, fails: a frame cut in two by a chunk boundary is lost.
    The two chunks make up the same bytes as the whole frame; received
    whole, the frame yields the increment "Hel"; received in two chunks it
    yields nothing (the head is a line of its own that does not parse and
    is answered with a warning, the tail a line without the prefix). *)
Lemma split_frame_is_lost :
  frameHead ++ frameTail = wholeFrame
  /\ outcome (streamAIResponse (okResponse [wholeFrame] Closed) never)
     = ([VString (js "Hel")], Normal)
  /\ streamAIResponse (okResponse [frameHead; frameTail] Closed) never
     = ([EvCheck false; EvRead; EvWarn SyntaxError;
         EvCheck false; EvRead; EvCheck false; EvRead; EvReleaseLock],
        Normal)
  /\ outcome (streamAIResponse (okResponse [frameHead; frameTail] Closed) never)
     <> outcome (streamAIResponse
                   (okResponse [List.concat [frameHead; frameTail]] Closed)
                   never).
Proof.
  split; [reflexivity|]. split; [vm_compute; reflexivity|].
  split; [vm_compute; reflexivity|]. vm_compute. discriminate.
Qed.

(** C1, amended. When every chunk boundary falls right after a line feed
    (and no later chunk opens with a byte order mark, which the decoder
    of each chunk would remove), reading the stream chunk by chunk hands
    over the same increments in the same order, and completes the same
    way, as reading all its bytes as one chunk. Each chunk is decoded and
    split into lines on its own; nothing is carried over from one chunk
    to the next. *)
Theorem chunking_at_line_ends (cs : list chunk) (ending : stream_end) :
  splitAtLineEnds cs = true ->
  framesOf cs = linesOf (decode (List.concat cs))
  /\ outcome (streamAIResponse (okResponse cs ending) never)
     = outcome (streamAIResponse (okResponse [List.concat cs] ending) never).
Proof.
  intros H. pose proof (framesOf_concat cs H) as Hf.
  split; [exact Hf|].
  apply outcome_streamAIResponse.
  rewrite !whileLoop_never_outcome.
  cbn [framesOf flat_map]. rewrite app_nil_r.
  fold (framesOf cs). now rewrite Hf.
Qed.

Lemma chunking_at_line_ends_witness :
  outcome
    (streamAIResponse
       (okResponse [bytes (deltaFrame "Hel" ++ NL ++ NL);
                    bytes (deltaFrame "lo" ++ NL ++ NL);
                    bytes ("data: [DONE]" ++ NL)] Closed) never)
  = outcome
      (streamAIResponse
         (okResponse
            [List.concat [bytes (deltaFrame "Hel" ++ NL ++ NL);
                          bytes (deltaFrame "lo" ++ NL ++ NL);
                          bytes ("data: [DONE]" ++ NL)]] Closed) never).
Proof.
  refine (proj2
    (chunking_at_line_ends
       [bytes (deltaFrame "Hel" ++ NL ++ NL);
        bytes (deltaFrame "lo" ++ NL ++ NL);
        bytes ("data: [DONE]" ++ NL)] Closed _)).
  reflexivity.
Defined.

(** The byte order mark matters: at the head of a chunk it is removed by
    the decoder made for that chunk, inside the stream it stays, and the
    line it opens is then one without the prefix. *)
Example bom_after_boundary_ex :
  outcome
    (streamAIResponse
       (okResponse [bytes (deltaFrame "Hel" ++ NL);
                    [xef; xbb; xbf] ++ bytes (deltaFrame "lo" ++ NL)] Closed)
       never)
  = ([VString (js "Hel"); VString (js "lo")], Normal)
  /\ outcome
       (streamAIResponse
          (okResponse [bytes (deltaFrame "Hel" ++ NL)
                       ++ [xef; xbb; xbf] ++ bytes (deltaFrame "lo" ++ NL)]
             Closed) never)
     = ([VString (js "Hel")], Normal).
Proof. split; vm_compute; reflexivity. Qed.

(* ------------------------------------------------------------------ *)
(** ** The function as a whole *)

(** Whatever happens, the function itself completes without throwing:
    its handler turns every failure of its block into a notice. *)
Lemma streamAIResponse_no_throw fetched tok :
  threw (snd (streamAIResponse fetched tok)) = false.
Proof.
  unfold streamAIResponse.
  destruct (tryBlock fetched tok) as [t []]; reflexivity.
Qed.

(* ------------------------------------------------------------------ *)
(** ** The fuel of the parser *)

Lemma skip_ws_length s : (len (skip_ws s) <= len s)%nat.
Proof.
  induction s as [|c s IH]; simpl; [lia|].
  destruct (isJSONWhiteSpace c); simpl; lia.
Qed.

Lemma parse_chars_length s :
  forall acc str r, parse_chars s acc = Some (str, r) -> (len r < len s)%nat.
Proof.
  induction s as [s IH] using (well_founded_induction
                                 (Wf_nat.well_founded_ltof _ len)).
  unfold Wf_nat.ltof in IH.
  intros acc str r. destruct s as [|c s]; cbn [parse_chars]; [discriminate|].
  destruct (c =? QUOTE); [intros [= _ <-]; simpl; lia|].
  destruct (c =? BACKSLASH).
  - destruct s as [|e s]; [discriminate|].
    destruct (e =? ch "u").
    + destruct s as [|h1 [|h2 [|h3 [|h4 s]]]]; try discriminate.
      destruct (hex_of h1), (hex_of h2), (hex_of h3), (hex_of h4);
        try discriminate.
      intros H. apply IH in H; simpl in *; lia.
    + destruct (escape_of e); [|discriminate].
      intros H. apply IH in H; simpl in *; lia.
  - destruct (c <? 0x20); [discriminate|].
    intros H. apply IH in H; simpl in *; lia.
Qed.

Lemma parse_digits_length s :
  forall acc k, (len (snd (parse_digits s acc k)) <= len s)%nat.
Proof.
  induction s as [|c s IH]; intros acc k; simpl; [lia|].
  destruct (digit_of c); simpl; [|lia].
  specialize (IH (acc * 10 + n) (S k)). lia.
Qed.

Lemma parse_int_length s m r : parse_int s = Some (m, r) -> (len r < len s)%nat.
Proof.
  unfold parse_int. destruct s as [|c s]; [discriminate|].
  destruct (digit_of c) as [d|]; [|discriminate].
  pose proof (parse_digits_length s d 0) as H.
  destruct (parse_digits s d 0) as [[m' k] r'].
  destruct d; intros [= _ <-]; simpl in *; lia.
Qed.

Lemma parse_frac_length m s m' k r :
  parse_frac m s = Some (m', k, r) -> (len r <= len s)%nat.
Proof.
  unfold parse_frac. destruct s as [|c s]; [intros [= _ _ <-]; lia|].
  destruct (c =? ch "."); [|intros [= _ _ <-]; lia].
  pose proof (parse_digits_length s m 0) as H.
  destruct (parse_digits s m 0) as [[m1 k1] r1].
  destruct k1; [discriminate|]. intros [= _ _ <-]. simpl in *. lia.
Qed.

Lemma parse_exp_length s e r : parse_exp s = Some (e, r) -> (len r <= len s)%nat.
Proof.
  unfold parse_exp. destruct s as [|c s]; [intros [= _ <-]; lia|].
  destruct ((c =? ch "e") || (c =? ch "E")); [|intros [= _ <-]; lia].
  assert (forall sg r1, (len r1 <= len s)%nat ->
            match parse_digits r1 0 0 with
            | (_, O, _) => None
            | (e0, S _, r2) => Some ((sg * Z.of_N e0)%Z, r2)
            end = Some (e, r) -> (len r <= len (c :: s))%nat) as Hd.
  { intros sg r1 Hr1. pose proof (parse_digits_length r1 0 0) as H.
    destruct (parse_digits r1 0 0) as [[e0 k] r2].
    destruct k; [discriminate|]. intros [= _ <-]. simpl in *. lia. }
  destruct s as [|x s']; [exact (Hd 1%Z [] (Nat.le_refl _))|].
  destruct (x =? ch "+"); [apply Hd; simpl; lia|].
  destruct (x =? ch "-"); apply Hd; simpl; lia.
Qed.

Lemma parse_number_length s n r :
  parse_number s = Some (n, r) -> (len r < len s)%nat.
Proof.
  unfold parse_number.
  set (p := match s with
            | c :: r0 => if c =? ch "-" then (true, r0) else (false, s)
            | [] => (false, s)
            end).
  assert (len (snd p) <= len s)%nat as Hp.
  { subst p. destruct s as [|c s]; [simpl; lia|].
    destruct (c =? ch "-"); simpl; lia. }
  destruct p as [neg s1]. simpl in Hp.
  destruct (parse_int s1) as [[m s2]|] eqn:E1; [|discriminate].
  destruct (parse_frac m s2) as [[[m' k] s3]|] eqn:E2; [|discriminate].
  destruct (parse_exp s3) as [[e s4]|] eqn:E3; [|discriminate].
  intros [= _ <-].
  apply parse_int_length in E1. apply parse_frac_length in E2.
  apply parse_exp_length in E3. lia.
Qed.

Lemma expect_length word s r :
  word <> [] -> expect word s = Some r -> (len r < len s)%nat.
Proof.
  unfold expect. intros Hw. destruct (startsWith s word) eqn:E; [|discriminate].
  intros [= <-]. apply startsWith_app in E. rewrite E at 2.
  rewrite length_app. destruct word; [congruence|]. simpl. lia.
Qed.

Lemma fueled_syntax {A} s : @fueled A PSyntax s.
Proof. split; [discriminate|]. intros v r [=]. Qed.

Lemma fueled_ok {A} (v : A) r s : (len r < len s)%nat -> fueled (POk v r) s.
Proof. intros H. split; [discriminate|]. now intros v' r' [= _ <-]. Qed.

Lemma fueled_weaken {A} (res : presult A) s s' :
  (len s <= len s')%nat -> fueled res s -> fueled res s'.
Proof. intros Hl [H1 H2]. split; [exact H1|]. intros v r E. apply H2 in E. lia. Qed.

Lemma parse_fuel_enough :
  forall f,
    (forall s, (2 * len s + 2 <= f)%nat -> fueled (parse_value f s) s)
    /\ (forall s acc, (2 * len s + 3 <= f)%nat ->
                      fueled (parse_elements f s acc) s)
    /\ (forall s acc, (2 * len s + 3 <= f)%nat ->
                      fueled (parse_members f s acc) s).
Proof.
  induction f as [|f (IHv & IHe & IHm)].
  { repeat split; intros; lia. }
  split; [|split].
  - intros s Hf. cbn [parse_value].
    pose proof (skip_ws_length s) as Hs.
    destruct (skip_ws s) as [|c r]; [apply fueled_syntax|]. simpl in Hs.
    destruct (c =? ch "{").
    { pose proof (skip_ws_length r) as Hr.
      destruct (skip_ws r) as [|x r']; [apply fueled_syntax|]. simpl in Hr.
      destruct (x =? ch "}"); [apply fueled_ok; lia|].
      apply (fueled_weaken _ (x :: r')); [simpl; lia|].
      apply IHm. simpl. lia. }
    destruct (c =? ch "[").
    { pose proof (skip_ws_length r) as Hr.
      destruct (skip_ws r) as [|x r']; [apply fueled_syntax|]. simpl in Hr.
      destruct (x =? ch "]"); [apply fueled_ok; lia|].
      apply (fueled_weaken _ (x :: r')); [simpl; lia|].
      apply IHe. simpl. lia. }
    destruct (c =? QUOTE).
    { destruct (parse_chars r []) as [[str r']|] eqn:E; [|apply fueled_syntax].
      apply parse_chars_length in E. apply fueled_ok. lia. }
    destruct (c =? ch "t").
    { destruct (expect (js "true") (c :: r)) as [r'|] eqn:E;
        [|apply fueled_syntax].
      apply expect_length in E; [|discriminate]. apply fueled_ok.
      simpl in E. lia. }
    destruct (c =? ch "f").
    { destruct (expect (js "false") (c :: r)) as [r'|] eqn:E;
        [|apply fueled_syntax].
      apply expect_length in E; [|discriminate]. apply fueled_ok.
      simpl in E. lia. }
    destruct (c =? ch "n").
    { destruct (expect (js "null") (c :: r)) as [r'|] eqn:E;
        [|apply fueled_syntax].
      apply expect_length in E; [|discriminate]. apply fueled_ok.
      simpl in E. lia. }
    destruct (parse_number (c :: r)) as [[n r']|] eqn:E; [|apply fueled_syntax].
    apply parse_number_length in E; apply fueled_ok. simpl in E. lia.
  - intros s acc Hf. cbn [parse_elements].
    destruct (IHv s ltac:(lia)) as [Hv1 Hv2].
    destruct (parse_value f s) as [v r| |]; [|apply fueled_syntax|congruence].
    specialize (Hv2 v r eq_refl).
    pose proof (skip_ws_length r) as Hr.
    destruct (skip_ws r) as [|x r']; [apply fueled_syntax|]. simpl in Hr.
    destruct (x =? ch ",").
    { apply (fueled_weaken _ r'); [lia|]. apply IHe. lia. }
    destruct (x =? ch "]"); [apply fueled_ok; lia | apply fueled_syntax].
  - intros s acc Hf. cbn [parse_members].
    pose proof (skip_ws_length s) as Hs.
    destruct (skip_ws s) as [|q r]; [apply fueled_syntax|]. simpl in Hs.
    destruct (q =? QUOTE); [|apply fueled_syntax].
    destruct (parse_chars r []) as [[key r1]|] eqn:E; [|apply fueled_syntax].
    apply parse_chars_length in E.
    pose proof (skip_ws_length r1) as Hr1.
    destruct (skip_ws r1) as [|colon r2]; [apply fueled_syntax|]. simpl in Hr1.
    destruct (colon =? ch ":"); [|apply fueled_syntax].
    destruct (IHv r2 ltac:(lia)) as [Hv1 Hv2].
    destruct (parse_value f r2) as [v r3| |]; [|apply fueled_syntax|congruence].
    specialize (Hv2 v r3 eq_refl).
    pose proof (skip_ws_length r3) as Hr3.
    destruct (skip_ws r3) as [|x r4]; [apply fueled_syntax|]. simpl in Hr3.
    destruct (x =? ch ",").
    { apply (fueled_weaken _ r4); [lia|]. apply IHm. lia. }
    destruct (x =? ch "}"); [apply fueled_ok; lia | apply fueled_syntax].
Qed.

(** [JSON_parse] never fails for want of fuel: where it gives [None], the
    text is no JSON text. *)
Theorem JSON_parse_fuel text :
  parse_value (parse_fuel text) text <> POutOfFuel.
Proof.
  apply (proj1 (parse_fuel_enough (parse_fuel text))). unfold parse_fuel. lia.
Qed.

(* ------------------------------------------------------------------ *)
(** ** Lines with white space around them

    The prefix test and the payload are taken from the line as it was
    received; [trim] serves the test for blank lines only. *)

(** A frame with a space before the prefix is passed over. *)
Example indented_frame_ex :
  forBody (js (" " ++ deltaFrame "Hel")) = skip.
Proof. vm_compute. reflexivity. Qed.

(** With CR LF line ends the carriage return stays on the line: a delta
    still parses, as JSON allows white space after a value, but the
    payload of the sentinel line is not the sentinel. *)
Example crlf_delta_ex :
  forBody (js (deltaFrame "Hel") ++ [13]) = emit (EvMarkdown (VString (js "Hel"))).
Proof. vm_compute. reflexivity. Qed.

Example crlf_sentinel_ex :
  forBody (js "data: [DONE]" ++ [13]) = emit (EvWarn SyntaxError).
Proof. vm_compute. reflexivity. Qed.

(** A line of the prefix alone is handled as a frame with an empty
    payload. *)
Example bare_prefix_ex :
  In (js "data: ") (linesOf (js "data: "))
  /\ forBody (js "data: ") = emit (EvWarn SyntaxError).
Proof. vm_compute. split; [now left | reflexivity]. Qed.

(* ================================================================== *)
(** * Further properties: the request, the turn, the reply *)

(* ------------------------------------------------------------------ *)
(** ** Strings quoted for JSON *)

Lemma hex_of_hexDigit d : d < 16 -> hex_of (hexDigit d) = Some d.
Proof.
  intros H. unfold hexDigit, hex_of.
  destruct (N.ltb_spec d 10).
  - replace ((48 <=? 48 + d) && (48 + d <=? 57)) with true
      by (symmetry; apply andb_true_iff; split; apply N.leb_le; lia).
    f_equal. lia.
  - replace ((48 <=? 87 + d) && (87 + d <=? 57)) with false
      by (symmetry; apply andb_false_iff; right; apply N.leb_gt; lia).
    replace ((65 <=? 87 + d) && (87 + d <=? 70)) with false
      by (symmetry; apply andb_false_iff; right; apply N.leb_gt; lia).
    replace ((97 <=? 87 + d) && (87 + d <=? 102)) with true
      by (symmetry; apply andb_true_iff; split; apply N.leb_le; lia).
    f_equal. lia.
Qed.

Lemma hex_digits_value c :
  c < 65536 ->
  ((c / 4096 * 16 + (c / 256) mod 16) * 16 + (c / 16) mod 16) * 16 + c mod 16
  = c.
Proof.
  intros _.
  replace (c / 4096) with (c / 16 / 16 / 16)
    by (rewrite !N.Div0.div_div; reflexivity).
  replace (c / 256) with (c / 16 / 16)
    by (rewrite !N.Div0.div_div; reflexivity).
  pose proof (N.Div0.div_mod c 16).
  pose proof (N.Div0.div_mod (c / 16) 16).
  pose proof (N.Div0.div_mod (c / 16 / 16) 16).
  lia.
Qed.

Lemma parse_unicodeEscape c rest acc :
  c < 65536 ->
  parse_chars (unicodeEscape c ++ rest) acc = parse_chars rest (c :: acc).
Proof.
  intros H. unfold unicodeEscape. cbn [app parse_chars].
  change (BACKSLASH =? QUOTE) with false.
  change (BACKSLASH =? BACKSLASH) with true.
  change (ch "u" =? ch "u") with true. cbv iota.
  rewrite !hex_of_hexDigit.
  - now rewrite hex_digits_value.
  - apply N.mod_lt. lia.
  - apply N.mod_lt. lia.
  - apply N.mod_lt. lia.
  - apply N.Div0.div_lt_upper_bound. lia.
Qed.


Section QuoteRoundTrip.
Variable rest : jsstring.

Lemma readsAs_raw c t tail :
  readsAs rest t tail ->
  (c =? QUOTE) = false -> (c =? BACKSLASH) = false -> (c <? 0x20) = false ->
  readsAs rest (c :: t) (c :: tail).
Proof.
  intros Ht H1 H2 H3 acc. cbn [parse_chars].
  rewrite H1, H2, H3, Ht. cbn [rev]. now rewrite <- app_assoc.
Qed.

Lemma readsAs_escape c e t tail :
  readsAs rest t tail ->
  (e =? ch "u") = false -> escape_of e = Some c ->
  readsAs rest (BACKSLASH :: e :: t) (c :: tail).
Proof.
  intros Ht H1 H2 acc. cbn [parse_chars].
  change (BACKSLASH =? QUOTE) with false.
  change (BACKSLASH =? BACKSLASH) with true. cbv iota.
  rewrite H1, H2, Ht. cbn [rev]. now rewrite <- app_assoc.
Qed.

Lemma readsAs_unicode c t tail :
  readsAs rest t tail -> c < 65536 -> readsAs rest (unicodeEscape c ++ t) (c :: tail).
Proof.
  intros Ht H acc. rewrite parse_unicodeEscape by exact H.
  rewrite Ht. cbn [rev]. now rewrite <- app_assoc.
Qed.

Lemma readsAs_quote : readsAs rest (QUOTE :: rest) [].
Proof.
  intros acc. cbn [parse_chars]. rewrite N.eqb_refl. now rewrite app_nil_r.
Qed.

Lemma quoteChars_readsAs n :
  forall s, (List.length s <= n)%nat ->
            readsAs rest (quoteChars s ++ QUOTE :: rest) s.
Proof.
  induction n as [|n IH]; intros [|c r] Hlen; simpl in Hlen; try lia;
    try apply readsAs_quote.
  assert (readsAs rest (quoteChars r ++ QUOTE :: rest) r) as Hr
      by (apply IH; lia).
  cbn [quoteChars].
  destruct (N.eqb_spec c 8) as [->|N8];
    [now apply (readsAs_escape 8 (ch "b"))|].
  destruct (N.eqb_spec c 9) as [->|N9];
    [now apply (readsAs_escape 9 (ch "t"))|].
  destruct (N.eqb_spec c 10) as [->|N10];
    [now apply (readsAs_escape 10 (ch "n"))|].
  destruct (N.eqb_spec c 12) as [->|N12];
    [now apply (readsAs_escape 12 (ch "f"))|].
  destruct (N.eqb_spec c 13) as [->|N13];
    [now apply (readsAs_escape 13 (ch "r"))|].
  destruct (c =? QUOTE) eqn:EQ.
  { apply N.eqb_eq in EQ. subst c. now apply (readsAs_escape QUOTE QUOTE). }
  destruct (c =? BACKSLASH) eqn:EB.
  { apply N.eqb_eq in EB. subst c.
    now apply (readsAs_escape BACKSLASH BACKSLASH). }
  destruct (c <? 0x20) eqn:EC.
  { rewrite <- app_assoc. apply readsAs_unicode; [exact Hr|].
    apply N.ltb_lt in EC. lia. }
  unfold isLeadSurrogate, isTrailSurrogate.
  destruct ((0xD800 <=? c) && (c <=? 0xDBFF)) eqn:EL.
  { apply andb_true_iff in EL. destruct EL as [L1 L2].
    apply N.leb_le in L1, L2.
    destruct r as [|d r'].
    - rewrite <- (app_nil_r (unicodeEscape c)), <- app_assoc.
      apply readsAs_unicode; [apply readsAs_quote | lia].
    - destruct ((0xDC00 <=? d) && (d <=? 0xDFFF)) eqn:ET.
      + apply andb_true_iff in ET. destruct ET as [T1 T2].
        apply N.leb_le in T1, T2.
        apply readsAs_raw; [|exact EQ|exact EB|exact EC].
        apply readsAs_raw;
          [apply IH; simpl in Hlen; lia
          |apply N.eqb_neq; unfold QUOTE; lia
          |apply N.eqb_neq; unfold BACKSLASH; lia
          |apply N.ltb_ge; lia].
      + rewrite <- app_assoc. apply readsAs_unicode; [exact Hr | lia]. }
  destruct ((0xDC00 <=? c) && (c <=? 0xDFFF)) eqn:ET.
  { apply andb_true_iff in ET. destruct ET as [T1 T2].
    apply N.leb_le in T1, T2.
    rewrite <- app_assoc. apply readsAs_unicode; [exact Hr | lia]. }
  now apply readsAs_raw.
Qed.

End QuoteRoundTrip.

(** What QuoteJSONString writes for a string, the parser reads as that
    string. *)
Lemma parse_QuoteJSONString s rest :
  parse_chars (quoteChars s ++ QUOTE :: rest) [] = Some (s, rest).
Proof. exact (quoteChars_readsAs rest (List.length s) s (Nat.le_refl _) []). Qed.

(** More fuel changes nothing once there is enough. *)
Lemma parse_stable :
  forall f f', (f <= f')%nat ->
    (forall s, parse_value f s <> POutOfFuel ->
               parse_value f' s = parse_value f s)
    /\ (forall s acc, parse_elements f s acc <> POutOfFuel ->
                      parse_elements f' s acc = parse_elements f s acc)
    /\ (forall s acc, parse_members f s acc <> POutOfFuel ->
                      parse_members f' s acc = parse_members f s acc).
Proof.
  induction f as [|f IH]; intros f' Hle.
  { repeat split; intros; cbn in *; congruence. }
  destruct f' as [|f']; [lia|].
  destruct (IH f' ltac:(lia)) as (IHv & IHe & IHm).
  split; [|split].
  - intros s. cbn [parse_value].
    destruct (skip_ws s) as [|c r]; [reflexivity|].
    destruct (c =? ch "{").
    { destruct (skip_ws r) as [|x r']; [reflexivity|].
      destruct (x =? ch "}"); [reflexivity|]. apply IHm. }
    destruct (c =? ch "[").
    { destruct (skip_ws r) as [|x r']; [reflexivity|].
      destruct (x =? ch "]"); [reflexivity|]. apply IHe. }
    reflexivity.
  - intros s acc. cbn [parse_elements]. intros H.
    assert (parse_value f s <> POutOfFuel) as Hv.
    { intros E. rewrite E in H. congruence. }
    rewrite (IHv s Hv).
    destruct (parse_value f s) as [v r| |]; try reflexivity.
    destruct (skip_ws r) as [|x r']; [reflexivity|].
    destruct (x =? ch ","); [now apply IHe|]. reflexivity.
  - intros s acc. cbn [parse_members]. intros H.
    destruct (skip_ws s) as [|q r]; [reflexivity|].
    destruct (q =? QUOTE); [|reflexivity].
    destruct (parse_chars r []) as [[key r1]|]; [|reflexivity].
    destruct (skip_ws r1) as [|colon r2]; [reflexivity|].
    destruct (colon =? ch ":"); [|reflexivity].
    assert (parse_value f r2 <> POutOfFuel) as Hv.
    { intros E. rewrite E in H. congruence. }
    rewrite (IHv r2 Hv).
    destruct (parse_value f r2) as [v r3| |]; try reflexivity.
    destruct (skip_ws r3) as [|x r4]; [reflexivity|].
    destruct (x =? ch ","); [now apply IHm|]. reflexivity.
Qed.

Lemma parse_value_more f f' s v r :
  parse_value f s = POk v r -> (f <= f')%nat -> parse_value f' s = POk v r.
Proof.
  intros H Hle. rewrite (proj1 (parse_stable f f' Hle) s); [exact H|].
  rewrite H. discriminate.
Qed.

Lemma parse_elements_more f f' s acc v r :
  parse_elements f s acc = POk v r -> (f <= f')%nat ->
  parse_elements f' s acc = POk v r.
Proof.
  intros H Hle.
  rewrite (proj1 (proj2 (parse_stable f f' Hle)) s acc); [exact H|].
  rewrite H. discriminate.
Qed.

Lemma parse_members_more f f' s acc v r :
  parse_members f s acc = POk v r -> (f <= f')%nat ->
  parse_members f' s acc = POk v r.
Proof.
  intros H Hle.
  rewrite (proj2 (proj2 (parse_stable f f' Hle)) s acc); [exact H|].
  rewrite H. discriminate.
Qed.

(** A text that parses with some fuel to a value and nothing after it
    is what [JSON_parse] gives. *)
Lemma JSON_parse_with f text v :
  parse_value f text = POk v [] -> JSON_parse text = Some v.
Proof.
  intros H. unfold JSON_parse.
  pose proof (JSON_parse_fuel text) as Hfuel.
  set (g := Nat.max f (parse_fuel text)).
  assert (parse_value g text = POk v []) as Hg
      by (apply (parse_value_more f); [exact H | lia]).
  rewrite <- (proj1 (parse_stable (parse_fuel text) g ltac:(lia)) text Hfuel).
  now rewrite Hg.
Qed.

(* ------------------------------------------------------------------ *)
(** ** The request body read back *)

Lemma member_app key t u : member key t ++ u = member key (t ++ u).
Proof. unfold member. now rewrite <- !app_assoc. Qed.

Lemma member_head key t :
  member key t = QUOTE :: quoteChars (js key) ++ QUOTE :: ch ":" :: t.
Proof. unfold member, QuoteJSONString. cbn [app]. now rewrite <- app_assoc. Qed.

Lemma parse_string_value s rest :
  parse_value 1 (QuoteJSONString s ++ rest) = POk (VString s) rest.
Proof.
  unfold QuoteJSONString. cbn [app]. rewrite <- app_assoc. cbn [app].
  cbn [parse_value skip_ws].
  change (isJSONWhiteSpace QUOTE) with false. cbv iota.
  change (QUOTE =? ch "{") with false. change (QUOTE =? ch "[") with false.
  rewrite N.eqb_refl. cbv iota.
  now rewrite parse_QuoteJSONString.
Qed.

Lemma members_step key vtext v more acc res r :
  (exists f, parse_value f vtext = POk v (ch "," :: more)) ->
  (exists f, parse_members f more ((js key, v) :: acc) = POk res r) ->
  exists f, parse_members f (member key vtext) acc = POk res r.
Proof.
  intros [f1 H1] [f2 H2]. exists (S (Nat.max f1 f2)).
  rewrite member_head. cbn [parse_members skip_ws].
  change (isJSONWhiteSpace QUOTE) with false. cbv iota.
  rewrite N.eqb_refl. cbv iota.
  rewrite parse_QuoteJSONString. cbn [skip_ws].
  change (isJSONWhiteSpace (ch ":")) with false. cbv iota.
  rewrite N.eqb_refl. cbv iota.
  rewrite (parse_value_more f1 _ _ _ _ H1) by lia. cbn [skip_ws].
  change (isJSONWhiteSpace (ch ",")) with false. cbv iota.
  rewrite N.eqb_refl. cbv iota.
  apply (parse_members_more f2); [exact H2 | lia].
Qed.

Lemma members_last key vtext v acc r :
  (exists f, parse_value f vtext = POk v (ch "}" :: r)) ->
  exists f, parse_members f (member key vtext) acc
            = POk (VObject (rev ((js key, v) :: acc))) r.
Proof.
  intros [f1 H1]. exists (S f1).
  rewrite member_head. cbn [parse_members skip_ws].
  change (isJSONWhiteSpace QUOTE) with false. cbv iota.
  rewrite N.eqb_refl. cbv iota.
  rewrite parse_QuoteJSONString. cbn [skip_ws].
  change (isJSONWhiteSpace (ch ":")) with false. cbv iota.
  rewrite N.eqb_refl. cbv iota.
  rewrite H1. cbn [skip_ws].
  change (isJSONWhiteSpace (ch "}")) with false. cbv iota.
  change (ch "}" =? ch ",") with false. rewrite N.eqb_refl. reflexivity.
Qed.

Lemma object_of_members key t res r :
  (exists f, parse_members f (member key t) [] = POk res r) ->
  exists f, parse_value f (ch "{" :: member key t) = POk res r.
Proof.
  intros [f H]. exists (S f). rewrite member_head in *.
  cbn [parse_value skip_ws].
  change (isJSONWhiteSpace (ch "{")) with false. cbv iota.
  rewrite N.eqb_refl. cbv iota.
  change (isJSONWhiteSpace QUOTE) with false. cbv iota.
  change (QUOTE =? ch "}") with false. cbv iota. exact H.
Qed.

Lemma elements_step etext v more acc res r :
  (exists f, parse_value f etext = POk v (ch "," :: more)) ->
  (exists f, parse_elements f more (v :: acc) = POk res r) ->
  exists f, parse_elements f etext acc = POk res r.
Proof.
  intros [f1 H1] [f2 H2]. exists (S (Nat.max f1 f2)).
  cbn [parse_elements].
  rewrite (parse_value_more f1 _ _ _ _ H1) by lia. cbn [skip_ws].
  change (isJSONWhiteSpace (ch ",")) with false. cbv iota.
  rewrite N.eqb_refl. cbv iota.
  apply (parse_elements_more f2); [exact H2 | lia].
Qed.

Lemma elements_last etext v acc r :
  (exists f, parse_value f etext = POk v (ch "]" :: r)) ->
  exists f, parse_elements f etext acc = POk (VArray (rev (v :: acc))) r.
Proof.
  intros [f1 H1]. exists (S f1). cbn [parse_elements]. rewrite H1.
  cbn [skip_ws]. change (isJSONWhiteSpace (ch "]")) with false. cbv iota.
  change (ch "]" =? ch ",") with false. rewrite N.eqb_refl. reflexivity.
Qed.

Lemma stringifyMessage_shape m rest :
  stringifyMessage m ++ rest
  = ch "{" :: member "role"
      (QuoteJSONString (role m) ++ ch "," :: member "content"
         (QuoteJSONString (content m) ++ ch "}" :: rest)).
Proof.
  unfold stringifyMessage, member. repeat rewrite <- app_assoc. reflexivity.
Qed.

Lemma parse_message m rest :
  exists f, parse_value f (stringifyMessage m ++ rest)
            = POk (messageValue m) rest.
Proof.
  rewrite stringifyMessage_shape.
  apply object_of_members.
  apply (members_step "role" _ (VString (role m))
           (member "content" (QuoteJSONString (content m) ++ ch "}" :: rest))).
  - exists 1%nat. apply parse_string_value.
  - destruct (members_last "content"
                (QuoteJSONString (content m) ++ ch "}" :: rest)
                (VString (content m)) [(js "role", VString (role m))] rest
                (ex_intro _ 1%nat (parse_string_value _ _))) as [f H].
    exists f. rewrite H. reflexivity.
Qed.

Lemma parse_message_elements rest :
  forall ms m acc,
    exists f,
      parse_elements f
        (joinWith (js ",") (map stringifyMessage (m :: ms)) ++ ch "]" :: rest)
        acc
      = POk (VArray (rev acc ++ map messageValue (m :: ms))) rest.
Proof.
  induction ms as [|m' ms IH]; intros m acc.
  - cbn [map joinWith].
    destruct (elements_last (stringifyMessage m ++ ch "]" :: rest)
                (messageValue m) acc rest (parse_message m _)) as [f H].
    exists f. rewrite H. cbn [rev]. reflexivity.
  - change (joinWith (js ",") (map stringifyMessage (m :: m' :: ms)))
      with (stringifyMessage m ++ js ","
            ++ joinWith (js ",") (map stringifyMessage (m' :: ms))).
    rewrite <- !app_assoc.
    change (js "," ++ ?x) with (ch "," :: x).
    destruct (IH m' (messageValue m :: acc)) as [f2 H2].
    destruct (elements_step
                (stringifyMessage m ++ ch "," ::
                   joinWith (js ",") (map stringifyMessage (m' :: ms))
                   ++ ch "]" :: rest)
                (messageValue m)
                (joinWith (js ",") (map stringifyMessage (m' :: ms))
                 ++ ch "]" :: rest)
                acc _ rest (parse_message m _) (ex_intro _ f2 H2)) as [f H].
    exists f. rewrite H. cbn [rev map]. now rewrite <- app_assoc.
Qed.

Lemma joined_messages_head m ms u :
  exists t, joinWith (js ",") (map stringifyMessage (m :: ms)) ++ u
            = ch "{" :: t.
Proof.
  destruct ms as [|m' ms]; cbn [map joinWith]; rewrite <- ?app_assoc;
    rewrite stringifyMessage_shape; eexists; reflexivity.
Qed.

Lemma parse_messages ms rest :
  exists f, parse_value f (stringifyMessages ms ++ rest)
            = POk (VArray (map messageValue ms)) rest.
Proof.
  unfold stringifyMessages. destruct ms as [|m ms].
  - exists 1%nat. reflexivity.
  - destruct (parse_message_elements rest ms m []) as [f H].
    exists (S f). rewrite <- !app_assoc.
    change (js "[" ++ ?x) with (ch "[" :: x).
    change (js "]" ++ rest) with (ch "]" :: rest).
    destruct (joined_messages_head m ms (ch "]" :: rest)) as [t Ht].
    rewrite Ht in *. cbn [parse_value skip_ws].
    change (isJSONWhiteSpace (ch "[")) with false. cbv iota.
    change (ch "[" =? ch "{") with false. rewrite N.eqb_refl. cbv iota.
    change (isJSONWhiteSpace (ch "{")) with false. cbv iota.
    change (ch "{" =? ch "]") with false. cbv iota.
    exact H.
Qed.

Lemma parse_true rest :
  parse_value 1 (js "true" ++ rest) = POk (VBool true) rest.
Proof. destruct rest; reflexivity. Qed.

Lemma parse_1000 rest :
  parse_value 1 (js "1000" ++ ch "}" :: rest)
  = POk (VNumber (mkNumber false 1000 0)) (ch "}" :: rest).
Proof. reflexivity. Qed.

(** The members after [messages]. *)
Lemma parse_body_tail streaming acc rest :
  exists f,
    parse_members f
      (if streaming : bool
       then member "stream"
              (js "true" ++ ch "," :: member "max_tokens"
                                        (js "1000" ++ ch "}" :: rest))
       else member "max_tokens" (js "1000" ++ ch "}" :: rest))
      acc
    = POk (VObject (rev acc
                    ++ (if streaming then [(js "stream", VBool true)] else [])
                    ++ [(js "max_tokens", VNumber (mkNumber false 1000 0))]))
          rest.
Proof.
  destruct streaming.
  - destruct (members_last "max_tokens" (js "1000" ++ ch "}" :: rest)
                (VNumber (mkNumber false 1000 0))
                ((js "stream", VBool true) :: acc) rest
                (ex_intro _ 1%nat (parse_1000 rest))) as [f2 H2].
    destruct (members_step "stream"
                (js "true" ++ ch "," :: member "max_tokens"
                                          (js "1000" ++ ch "}" :: rest))
                (VBool true) _ acc _ rest
                (ex_intro _ 1%nat (parse_true _)) (ex_intro _ f2 H2))
      as [f H].
    exists f. rewrite H. cbn [rev app]. now rewrite <- !app_assoc.
  - destruct (members_last "max_tokens" (js "1000" ++ ch "}" :: rest)
                (VNumber (mkNumber false 1000 0)) acc rest
                (ex_intro _ 1%nat (parse_1000 rest))) as [f H].
    exists f. rewrite H. reflexivity.
Qed.

Lemma bodyText_shape config messages streaming :
  bodyText config messages streaming
  = ch "{" ::
    match model config with
    | Some m =>
        member "model" (QuoteJSONString m ++ ch "," ::
          member "messages" (stringifyMessages messages ++ ch "," ::
            (if streaming
             then member "stream"
                    (js "true" ++ ch "," :: member "max_tokens"
                                              (js "1000" ++ ch "}" :: []))
             else member "max_tokens" (js "1000" ++ ch "}" :: []))))
    | None =>
        member "messages" (stringifyMessages messages ++ ch "," ::
          (if streaming
           then member "stream"
                  (js "true" ++ ch "," :: member "max_tokens"
                                            (js "1000" ++ ch "}" :: []))
           else member "max_tokens" (js "1000" ++ ch "}" :: [])))
    end.
Proof.
  unfold bodyText, streamingBody, nonStreamingBody, modelMember, member.
  destruct streaming, (model config); repeat rewrite <- app_assoc; reflexivity.
Qed.

Lemma parse_body config messages streaming :
  JSON_parse (bodyText config messages streaming)
  = Some (bodyValue config messages streaming).
Proof.
  assert (forall acc,
            exists f,
              parse_members f
                (member "messages" (stringifyMessages messages ++ ch "," ::
                   (if streaming
                    then member "stream"
                           (js "true" ++ ch "," :: member "max_tokens"
                                                     (js "1000" ++ ch "}" :: []))
                    else member "max_tokens" (js "1000" ++ ch "}" :: []))))
                acc
              = POk (VObject
                       (rev acc
                        ++ [(js "messages", VArray (map messageValue messages))]
                        ++ (if streaming then [(js "stream", VBool true)]
                            else [])
                        ++ [(js "max_tokens",
                             VNumber (mkNumber false 1000 0))])) [])
    as Hmsgs.
  { intros acc.
    destruct (parse_body_tail streaming
                ((js "messages", VArray (map messageValue messages)) :: acc)
                []) as [f2 H2].
    cbn [rev] in H2. rewrite <- app_assoc in H2.
    eapply members_step; [apply parse_messages | exists f2; exact H2]. }
  rewrite bodyText_shape. unfold bodyValue.
  destruct (model config) as [m|].
  - assert (exists f, parse_value f
                (ch "{" :: member "model" (QuoteJSONString m ++ ch "," ::
                   member "messages" (stringifyMessages messages ++ ch "," ::
                     (if streaming
                      then member "stream"
                             (js "true" ++ ch "," ::
                                member "max_tokens" (js "1000" ++ ch "}" :: []))
                      else member "max_tokens" (js "1000" ++ ch "}" :: [])))))
              = POk (VObject
                       ([(js "model", VString m)]
                        ++ [(js "messages", VArray (map messageValue messages))]
                        ++ (if streaming then [(js "stream", VBool true)]
                            else [])
                        ++ [(js "max_tokens",
                             VNumber (mkNumber false 1000 0))])) [])
      as [f H].
    { apply object_of_members. eapply members_step.
      - exists 1%nat. apply parse_string_value.
      - apply (Hmsgs [(js "model", VString m)]). }
    exact (JSON_parse_with f _ _ H).
  - destruct (object_of_members "messages" _ _ [] (Hmsgs [])) as [f H].
    exact (JSON_parse_with f _ _ H).
Qed.

(* ------------------------------------------------------------------ *)
(** ** Round trips through JSON *)

(** X1. What QuoteJSONString writes for a string, whatever code units
    it holds (quotes, backslashes, control characters, surrogates with or
    without partner), JSON.parse reads back as that very string. *)
Theorem quoted_string_round_trip (s : jsstring) :
  JSON_parse (QuoteJSONString s) = Some (VString s).
Proof.
  apply (JSON_parse_with 1).
  rewrite <- (app_nil_r (QuoteJSONString s)). apply parse_string_value.
Qed.

(** X2. The body of either request parses back to the object it was
    made from: the model, every message with its role and content in the
    order given, [stream: true] (streaming request only) and
    [max_tokens: 1000]; no character of a prompt is lost or changed. *)
Theorem request_body_round_trip
    (config : AIServerConfig) (messages : list chat_message) :
  JSON_parse (streamingBody config messages)
  = Some (bodyValue config messages true)
  /\ JSON_parse (nonStreamingBody config messages)
     = Some (bodyValue config messages false).
Proof.
  split.
  - exact (parse_body config messages true).
  - exact (parse_body config messages false).
Qed.

Lemma object1_shape key t rest :
  object1 key t ++ rest = ch "{" :: member key (t ++ ch "}" :: rest).
Proof. unfold object1, member. repeat rewrite <- app_assoc. reflexivity. Qed.

Lemma parse_object1 key t v :
  (forall rest, exists f, parse_value f (t ++ rest) = POk v rest) ->
  forall rest, exists f,
    parse_value f (object1 key t ++ rest) = POk (VObject [(js key, v)]) rest.
Proof.
  intros Ht rest. rewrite object1_shape. apply object_of_members.
  destruct (members_last key (t ++ ch "}" :: rest) v [] rest (Ht _)) as [f H].
  exists f. rewrite H. reflexivity.
Qed.

Lemma array_of_elements t res r :
  (exists f, parse_elements f (ch "{" :: t) [] = POk res r) ->
  exists f, parse_value f (ch "[" :: ch "{" :: t) = POk res r.
Proof.
  intros [f H]. exists (S f). cbn [parse_value skip_ws].
  change (isJSONWhiteSpace (ch "[")) with false. cbv iota.
  change (ch "[" =? ch "{") with false. rewrite N.eqb_refl. cbv iota.
  change (isJSONWhiteSpace (ch "{")) with false. cbv iota.
  change (ch "{" =? ch "]") with false. cbv iota. exact H.
Qed.

Lemma parse_array1 key t v :
  (forall rest, exists f,
      parse_value f (object1 key t ++ rest) = POk v rest) ->
  forall rest, exists f,
    parse_value f ((js "[" ++ object1 key t ++ js "]") ++ rest)
    = POk (VArray [v]) rest.
Proof.
  intros Ht rest.
  replace ((js "[" ++ object1 key t ++ js "]") ++ rest)
    with (ch "[" :: object1 key t ++ ch "]" :: rest)
    by (rewrite <- !app_assoc; reflexivity).
  pose proof (elements_last (object1 key t ++ ch "]" :: rest) v [] rest (Ht _))
    as He.
  rewrite object1_shape in *. now apply array_of_elements.
Qed.

Lemma parse_choiceText field text :
  JSON_parse (choiceText field text) = Some (choiceValue field text).
Proof.
  assert (forall rest, exists f,
             parse_value f (choiceText field text ++ rest)
             = POk (choiceValue field text) rest) as H.
  { unfold choiceText, choiceValue.
    apply parse_object1. apply parse_array1.
    apply parse_object1. apply parse_object1.
    intros rest. exists 1%nat. apply parse_string_value. }
  destruct (H []) as [f Hf]. rewrite app_nil_r in Hf.
  exact (JSON_parse_with f _ _ Hf).
Qed.

Lemma choiceText_head field text :
  exists t, choiceText field text = ch "{" :: t.
Proof.
  unfold choiceText. rewrite <- (app_nil_r (object1 _ _)), object1_shape.
  eexists. reflexivity.
Qed.

Lemma forBody_deltaLine (text : jsstring) :
  text <> [] ->
  forBody (deltaLine text) = emit (EvMarkdown (VString text)).
Proof.
  intros Hne. unfold deltaLine.
  rewrite forBody_data.
  - change (slice 6 (DATA_PREFIX ++ choiceText "delta" text))
      with (choiceText "delta" text).
    unfold parseContent. rewrite parse_choiceText.
    change (contentOf (choiceValue "delta" text)) with
      (@inr parse_exn value (VString text)).
    cbn [ToBoolean]. destruct text; [congruence | reflexivity].
  - apply startsWith_prefix.
  - change (slice 6 (DATA_PREFIX ++ choiceText "delta" text))
      with (choiceText "delta" text).
    destruct (choiceText_head "delta" text) as [t ->]. discriminate.
Qed.

(** X3. A delta frame written by the service for any text that is not
    empty, the text quoted as JSON, hands exactly that text to the sink:
    one increment, escapes undone, nothing else. *)
Theorem delta_frame_is_delivered (text : jsstring) :
  text <> [] ->
  forBody (deltaLine text) = emit (EvMarkdown (VString text)).
Proof. exact (forBody_deltaLine text). Qed.

Lemma delta_frame_is_delivered_witness :
  forBody (deltaLine [QUOTE; 10; 0xD83D; 0xDE00; BACKSLASH])
  = emit (EvMarkdown (VString [QUOTE; 10; 0xD83D; 0xDE00; BACKSLASH])).
Proof.
  apply (delta_frame_is_delivered [QUOTE; 10; 0xD83D; 0xDE00; BACKSLASH]).
  discriminate.
Defined.

(* ------------------------------------------------------------------ *)
(** ** A stream of delta frames *)

Lemma hexDigit_not_LF n : hexDigit n <> LF.
Proof. unfold hexDigit, LF. destruct (n <? 10); lia. Qed.

Lemma unicodeEscape_no_LF c : ~ In LF (unicodeEscape c).
Proof.
  unfold unicodeEscape. cbn [In].
  intros [H|[H|[H|[H|[H|[H|[]]]]]]];
    try discriminate; revert H; apply hexDigit_not_LF.
Qed.

Lemma quoteChars_no_LF n :
  forall s, (List.length s <= n)%nat -> ~ In LF (quoteChars s).
Proof.
  induction n as [|n IH]; intros [|c r] Hlen; simpl in Hlen; try lia;
    try (intros []).
  assert (~ In LF (quoteChars r)) as Hr by (apply IH; lia).
  assert (forall a b, a <> LF -> b <> LF -> ~ In LF (a :: b :: quoteChars r))
    as Hpair.
  { intros a b Ha Hb [H|[H|H]]; congruence. }
  assert (~ In LF (unicodeEscape c ++ quoteChars r)) as Huni.
  { rewrite in_app_iff. intros [H|H]; [now apply unicodeEscape_no_LF in H|].
    contradiction. }
  cbn [quoteChars].
  repeat match goal with
         | |- context [if (c =? ?k) then _ else _] =>
             destruct (c =? k); [apply Hpair; discriminate|]
         end.
  destruct (N.ltb_spec c 0x20); [exact Huni|].
  destruct (isLeadSurrogate c).
  - destruct r as [|d r']; [apply unicodeEscape_no_LF|].
    destruct (isTrailSurrogate d) eqn:Ed; [|exact Huni].
    unfold isTrailSurrogate in Ed. apply andb_true_iff in Ed.
    destruct Ed as [Ed _]. apply N.leb_le in Ed.
    intros [Hc|[Hd|Hin]]; unfold LF in *; try lia.
    revert Hin. apply IH. simpl in Hlen. lia.
  - destruct (isTrailSurrogate c); [exact Huni|].
    intros [Hc|Hin]; [unfold LF in *; lia | contradiction].
Qed.

Lemma deltaLine_no_LF text : ~ In LF (deltaLine text).
Proof.
  unfold deltaLine, choiceText, object1, member, QuoteJSONString.
  rewrite !in_app_iff.
  pose proof (quoteChars_no_LF _ text (Nat.le_refl _)) as Hq.
  assert (forall k, ~ In LF (QUOTE :: quoteChars (js k) ++ [QUOTE])) as Hk.
  { intros k [H|H]; [discriminate|]. rewrite in_app_iff in H.
    destruct H as [H|[H|[]]]; [|discriminate].
    now apply (quoteChars_no_LF _ (js k) (Nat.le_refl _)). }
  intros H.
  repeat match goal with
         | H : _ \/ _ |- _ => destruct H as [H|H]
         | H : In LF (_ ++ _) |- _ => rewrite in_app_iff in H
         | H : In LF (QUOTE :: quoteChars (js _) ++ [QUOTE]) |- _ =>
             now apply Hk in H
         end;
    try (cbn in H; repeat destruct H as [H|H]; try discriminate; tauto).
  all: try (destruct H as [H|H]; [discriminate|]).
  all: try (rewrite in_app_iff in H; destruct H as [H|[H|[]]];
            [contradiction | discriminate]).
Qed.

Lemma split_no_sep sep a : ~ In sep a -> split sep a = [a].
Proof.
  induction a as [|c a IH]; intros H; cbn [split]; [reflexivity|].
  destruct (N.eqb_spec c sep) as [->|_]; [elim H; now left|].
  rewrite IH; [reflexivity|]. intros Hin. apply H. now right.
Qed.

Lemma deltaLine_not_blank text : truthyString (trim (deltaLine text)) = true.
Proof.
  destruct (trim (deltaLine text)) eqn:E; [|reflexivity].
  apply trim_nil_iff in E. discriminate.
Qed.

Lemma linesOf_frames texts :
  linesOf (flat_map (fun t => deltaLine t ++ [LF]) texts)
  = map deltaLine texts.
Proof.
  unfold linesOf.
  assert (split LF (flat_map (fun t => deltaLine t ++ [LF]) texts)
          = map deltaLine texts ++ [[]]) as ->.
  { induction texts as [|t texts IH]; [reflexivity|].
    cbn [flat_map map]. rewrite <- app_assoc. cbn [app].
    rewrite split_app_sep, IH, (split_no_sep LF _ (deltaLine_no_LF t)).
    reflexivity. }
  rewrite filter_app. cbn [filter trim trimStart trimEnd rev app truthyString].
  rewrite app_nil_r.
  induction texts as [|t texts IH]; [reflexivity|].
  cbn [map filter]. now rewrite deltaLine_not_blank, IH.
Qed.

(** X4. A chunk whose text is a run of delta frames, one per line, each
    written by the service for a text that is not empty, hands exactly
    those texts to the sink, in the order of the frames, and the loop
    goes on to the next chunk. *)
Theorem delta_frames_are_delivered (value : chunk) (texts : list jsstring) :
  decode value = flat_map (fun t => deltaLine t ++ [LF]) texts ->
  (forall t, In t texts -> t <> []) ->
  onChunk value = (map (fun t => EvMarkdown (VString t)) texts, Normal).
Proof.
  intros Hd Hne. unfold onChunk. rewrite Hd, linesOf_frames. clear Hd.
  induction texts as [|t texts IH]; [reflexivity|].
  cbn [map forLines].
  rewrite forBody_deltaLine by (apply Hne; now left).
  rewrite IH by (intros u Hu; apply Hne; now right).
  reflexivity.
Qed.

Lemma delta_frames_are_delivered_witness :
  onChunk (bytes (deltaFrame "Hel" ++ NL ++ deltaFrame "lo" ++ NL))
  = ([EvMarkdown (VString (js "Hel")); EvMarkdown (VString (js "lo"))],
     Normal).
Proof.
  apply (delta_frames_are_delivered
           (bytes (deltaFrame "Hel" ++ NL ++ deltaFrame "lo" ++ NL))
           [js "Hel"; js "lo"]).
  - vm_compute. reflexivity.
  - intros t Hin. destruct Hin as [H|[H|H]];
      [rewrite <- H | rewrite <- H | destruct H]; discriminate.
Defined.

(* ------------------------------------------------------------------ *)
(** ** A malformed frame among delta frames *)

Lemma forLines_deltaLines texts :
  (forall t, In t texts -> t <> []) ->
  forLines (map deltaLine texts)
  = (map (fun t => EvMarkdown (VString t)) texts, Normal).
Proof.
  intros Hne. induction texts as [|t texts IH]; [reflexivity|].
  cbn [map forLines].
  rewrite forBody_deltaLine by (apply Hne; now left).
  rewrite IH by (intros u Hu; apply Hne; now right).
  reflexivity.
Qed.

Lemma increments_markdown texts :
  increments (map (fun t => EvMarkdown (VString t)) texts) = map VString texts.
Proof. induction texts as [|t texts IH]; cbn; [reflexivity | now rewrite IH]. Qed.

(** C6. A frame whose payload is not valid JSON (and is not the sentinel)
    is answered with a warning only: no increment, no failure, the loop
    goes on. When the frames of an accepted stream, however they are laid
    out in chunks, are delta frames written for texts that are not empty
    with one such malformed frame among them, the run hands over exactly
    the texts of the delta frames, in the order of the frames, and ends
    normally, with no failure. And whatever surrounds the malformed frame
    (any lines, chunks, token and ending), the chunk that holds it and the
    whole run hand over the same increments in the same order, and
    complete the same way, as with that frame taken out; handling the
    lines of a chunk never throws. *)
Theorem malformed_frame_is_skipped (line : jsstring) :
  startsWith line DATA_PREFIX = true ->
  slice 6 line <> DONE ->
  JSON_parse (slice 6 line) = None ->
  forBody line = emit (EvWarn SyntaxError)
  /\ (forall (r : response) (cs : list chunk) (texts1 texts2 : list jsstring),
        ok r = true ->
        body r = Some (mkBody cs Closed) ->
        framesOf cs = map deltaLine texts1 ++ line :: map deltaLine texts2 ->
        (forall t, In t (texts1 ++ texts2) -> t <> []) ->
        outcome (streamAIResponse (Resolved r) never)
        = (map VString (texts1 ++ texts2), Normal))
  /\ (forall (tok : token) (i : nat) (before after : list chunk)
             (value value' : chunk) (ending : stream_end)
             (l1 l2 : list jsstring),
        linesOf (decode value) = l1 ++ line :: l2 ->
        linesOf (decode value') = l1 ++ l2 ->
        outcome (onChunk value) = outcome (onChunk value')
        /\ threw (snd (onChunk value)) = false
        /\ outcome (whileLoop tok i (before ++ value :: after) ending)
           = outcome (whileLoop tok i (before ++ value' :: after) ending)).
Proof.
  intros Hp Hd Hj.
  assert (forBody line = emit (EvWarn SyntaxError)) as Hb.
  { rewrite (forBody_data line Hp Hd). unfold parseContent. now rewrite Hj. }
  split; [exact Hb|]. split.
  - intros r cs texts1 texts2 Hok Hbody Hf Hne.
    pose proof (whileLoop_never_outcome cs Closed 0) as Ho.
    rewrite Hf, forLines_app in Ho. cbn [forLines] in Ho.
    rewrite Hb in Ho.
    rewrite !forLines_deltaLines in Ho
      by (intros t Ht; apply Hne; rewrite in_app_iff; tauto).
    unfold streamAIResponse.
    rewrite (tryBlock_accepted r never cs Closed Hok Hbody),
      tryFinally_release.
    destruct (whileLoop never 0 cs Closed) as [t c].
    unfold outcome in Ho. cbn [seq emit fst snd endCompletion app] in Ho.
    injection Ho as Ht ->.
    cbn [tryCatch fst snd]. unfold outcome. cbn [fst snd].
    rewrite increments_app, Ht, !increments_app. cbn [increments].
    now rewrite !increments_markdown, !app_nil_r, map_app.
  - intros tok i before after value value' ending l1 l2 Hl Hl'.
    destruct (malformed_frame_drop tok i before after value value' ending
                l1 l2 line Hp Hd Hj Hl Hl') as (_ & H1 & H2 & H3).
    now repeat split.
Qed.

Lemma malformed_frame_is_skipped_witness :
  outcome
    (streamAIResponse
       (okResponse
          [bytes (deltaFrame "Hel" ++ NL ++ NL ++ "data: {not valid json" ++ NL);
           bytes (NL ++ deltaFrame "lo" ++ NL)] Closed) never)
  = ([VString (js "Hel"); VString (js "lo")], Normal).
Proof.
  refine (proj1 (proj2
    (malformed_frame_is_skipped (js "data: {not valid json") _ _ _))
    (mkResponse 200 (js "OK")
       (Some (mkBody
                [bytes (deltaFrame "Hel" ++ NL ++ NL
                        ++ "data: {not valid json" ++ NL);
                 bytes (NL ++ deltaFrame "lo" ++ NL)] Closed)))
    [bytes (deltaFrame "Hel" ++ NL ++ NL ++ "data: {not valid json" ++ NL);
     bytes (NL ++ deltaFrame "lo" ++ NL)]
    [js "Hel"] [js "lo"] _ _ _ _).
  - reflexivity.
  - vm_compute. discriminate.
  - vm_compute. reflexivity.
  - reflexivity.
  - reflexivity.
  - vm_compute. reflexivity.
  - intros t Hin. destruct Hin as [H|[H|H]];
      [rewrite <- H | rewrite <- H | destruct H]; discriminate.
Defined.

(* ------------------------------------------------------------------ *)
(** ** More on the line loop and the read loop *)

(** X5. A line ends the stream exactly when it is the prefix followed
    by the sentinel and nothing else: white space before the prefix, or
    anything after the sentinel (a carriage return, a space), and the
    line is handled as any other. *)
Theorem sentinel_is_exact (line : jsstring) :
  snd (forBody line) = Return <-> line = DATA_PREFIX ++ DONE.
Proof.
  rewrite <- sentinel_frame_line. split.
  - intros H. destruct (isSentinelFrame line) eqn:E; [reflexivity|].
    rewrite (forBody_not_sentinel line E) in H. discriminate.
  - intros H. now rewrite (forBody_sentinel line H).
Qed.

Lemma sentinel_is_exact_witness :
  snd (forBody (js "data: [DONE]")) = Return.
Proof.
  apply (proj2 (sentinel_is_exact (js "data: [DONE]"))). reflexivity.
Defined.

Lemma forBody_increments line :
  (List.length (increments (fst (forBody line))) <= 1)%nat.
Proof.
  unfold forBody.
  destruct (startsWith line DATA_PREFIX); [|simpl; lia].
  destruct (jsstring_eqb (slice 6 line) DONE); [simpl; lia|].
  destruct (parseContent (slice 6 line)) as [x|c]; [simpl; lia|].
  destruct (ToBoolean c); simpl; lia.
Qed.

(** X6. The increments of a run of lines are those of its lines, one
    line after the other up to the first sentinel frame, at most one
    increment a line: none is left out, doubled or moved. The loop ends
    by [return] exactly when there is a sentinel frame. *)
Theorem increments_follow_lines (lines : list jsstring) :
  increments (fst (forLines lines))
  = flat_map (fun line => increments (fst (forBody line)))
             (untilSentinel lines)
  /\ (forall line, (List.length (increments (fst (forBody line))) <= 1)%nat)
  /\ snd (forLines lines)
     = if existsb isSentinelFrame lines then Return else Normal.
Proof.
  split; [|split; [exact forBody_increments|]].
  - induction lines as [|line rest IH]; [reflexivity|].
    cbn [forLines untilSentinel].
    destruct (isSentinelFrame line) eqn:E.
    + now rewrite (forBody_sentinel line E).
    + rewrite seq_normal by now apply forBody_not_sentinel.
      cbn [fst flat_map]. now rewrite increments_app, IH.
  - induction lines as [|line rest IH]; [reflexivity|].
    cbn [forLines existsb].
    destruct (isSentinelFrame line) eqn:E.
    + now rewrite (forBody_sentinel line E).
    + rewrite seq_normal by now apply forBody_not_sentinel.
      cbn [snd orb]. exact IH.
Qed.

Lemma forBody_truthy line :
  Forall (fun v => ToBoolean v = true) (increments (fst (forBody line))).
Proof.
  unfold forBody.
  destruct (startsWith line DATA_PREFIX); [|constructor].
  destruct (jsstring_eqb (slice 6 line) DONE); [constructor|].
  destruct (parseContent (slice 6 line)) as [x|c]; [constructor|].
  destruct (ToBoolean c) eqn:E; repeat constructor. exact E.
Qed.

Lemma seq_truthy m k :
  Forall (fun v => ToBoolean v = true) (increments (fst m)) ->
  Forall (fun v => ToBoolean v = true) (increments (fst k)) ->
  Forall (fun v => ToBoolean v = true) (increments (fst (m ;; k))).
Proof.
  destruct m as [t []], k as [t' c']; cbn [seq fst snd]; auto.
  intros Hm Hk. rewrite increments_app. apply Forall_app. now split.
Qed.

Lemma forLines_truthy lines :
  Forall (fun v => ToBoolean v = true) (increments (fst (forLines lines))).
Proof.
  induction lines as [|line rest IH]; cbn [forLines]; [constructor|].
  apply seq_truthy; [apply forBody_truthy | exact IH].
Qed.

Lemma whileLoop_truthy tok cs e :
  forall i,
    Forall (fun v => ToBoolean v = true)
           (increments (fst (whileLoop tok i cs e))).
Proof.
  induction cs as [|value rest IH]; intros i.
  - destruct (tok i) eqn:H.
    + rewrite whileLoop_cancelled by exact H. constructor.
    + rewrite whileLoop_end by exact H. constructor.
  - destruct (tok i) eqn:H.
    + rewrite whileLoop_cancelled by exact H. constructor.
    + rewrite whileLoop_chunk by exact H.
      apply seq_truthy; [constructor|].
      apply seq_truthy; [apply forLines_truthy | apply IH].
Qed.

(** X7. Nothing falsy ever reaches the sink: every value the function
    hands to [stream.markdown], an increment or the notice of a failure,
    is truthy, so never the empty string, null or undefined. *)
Theorem sink_gets_truthy_values (fetched : fetch_result) (tok : token) :
  Forall (fun v => ToBoolean v = true)
         (increments (fst (streamAIResponse fetched tok))).
Proof.
  assert (Forall (fun v => ToBoolean v = true)
                 (increments (fst (tryBlock fetched tok)))) as Hb.
  { unfold tryBlock. destruct fetched as [e|r]; [constructor|].
    destruct (ok r); cbn [negb]; [|constructor].
    destruct (body r) as [[cs e]|]; [|constructor].
    rewrite tryFinally_release. cbn [fst chunks ending].
    rewrite increments_app. apply Forall_app. split; [|constructor].
    apply whileLoop_truthy. }
  unfold streamAIResponse.
  destruct (tryBlock fetched tok) as [t []]; try exact Hb.
  cbn [tryCatch emit fst] in *. rewrite increments_app.
  apply Forall_app. split; [exact Hb|]. repeat constructor.
Qed.

Lemma releases_app t t' : releases (t ++ t') = (releases t + releases t')%nat.
Proof.
  induction t as [|ev t IHt]; [reflexivity|].
  destruct ev; cbn [app releases]; now rewrite ?IHt.
Qed.

Lemma whileLoop_releases tok cs e :
  forall i, releases (fst (whileLoop tok i cs e)) = 0%nat.
Proof.
  assert (forall line, releases (fst (forBody line)) = 0%nat) as Hb.
  { intros line. unfold forBody.
    destruct (startsWith line DATA_PREFIX); [|reflexivity].
    destruct (jsstring_eqb (slice 6 line) DONE); [reflexivity|].
    destruct (parseContent (slice 6 line)) as [x|c]; [reflexivity|].
    destruct (ToBoolean c); reflexivity. }
  assert (forall m k, releases (fst m) = 0%nat -> releases (fst k) = 0%nat ->
                      releases (fst (m ;; k)) = 0%nat) as Hseq.
  { intros [t []] [t' c']; cbn [seq fst snd]; auto.
    intros Hm Hk. now rewrite releases_app, Hm, Hk. }
  assert (forall lines, releases (fst (forLines lines)) = 0%nat) as Hl.
  { induction lines as [|line rest IH]; cbn [forLines]; [reflexivity|].
    apply Hseq; [apply Hb | exact IH]. }
  induction cs as [|value rest IH]; intros i.
  - destruct (tok i) eqn:H.
    + now rewrite whileLoop_cancelled.
    + now rewrite whileLoop_end.
  - destruct (tok i) eqn:H.
    + now rewrite whileLoop_cancelled.
    + rewrite whileLoop_chunk by exact H.
      apply Hseq; [reflexivity|]. apply Hseq; [apply Hl | apply IH].
Qed.

(** X8. The reader is released exactly once whenever it was taken (the
    response accepted and with a body), however the reading ends: end of
    the body, sentinel, cancellation or a failing read; the release comes
    after the last read. When no reader is taken, nothing is released. *)
Theorem reader_released_once (fetched : fetch_result) (tok : token) :
  releases (fst (streamAIResponse fetched tok))
  = (if readerTaken fetched then 1 else 0)%nat
  /\ (readerTaken fetched = true ->
      exists t, fst (tryBlock fetched tok) = t ++ [EvReleaseLock]
                /\ releases t = 0%nat).
Proof.
  assert (releases (fst (tryBlock fetched tok))
          = (if readerTaken fetched then 1 else 0)%nat
          /\ (readerTaken fetched = true ->
              exists t, fst (tryBlock fetched tok) = t ++ [EvReleaseLock]
                        /\ releases t = 0%nat)) as [H1 H2].
  { unfold tryBlock, readerTaken. destruct fetched as [e|r].
    - split; [reflexivity | discriminate].
    - destruct (ok r); cbn [negb andb]; [|split; [reflexivity|discriminate]].
      destruct (body r) as [[cs e]|]; [|split; [reflexivity|discriminate]].
      rewrite tryFinally_release. cbn [fst chunks ending]. split.
      + rewrite releases_app, whileLoop_releases. reflexivity.
      + intros _. eexists. split; [reflexivity | apply whileLoop_releases]. }
  split; [|exact H2].
  unfold streamAIResponse.
  destruct (tryBlock fetched tok) as [t []]; try exact H1.
  cbn [tryCatch emit fst] in *. rewrite releases_app, H1. simpl. lia.
Qed.

Lemma reader_released_once_witness :
  exists t,
    fst (tryBlock (okResponse [bytes scenario] (Errored (mkError (js "reset"))))
           never)
    = t ++ [EvReleaseLock] /\ releases t = 0%nat.
Proof.
  apply (reader_released_once
           (okResponse [bytes scenario] (Errored (mkError (js "reset"))))
           never).
  reflexivity.
Defined.

(** X9. The body is read at most once more than it has chunks: once for
    each chunk and once to learn that it has ended. *)
Theorem reads_are_bounded
    (tok : token) (r : response) (cs : list chunk) (e : stream_end) :
  ok r = true -> body r = Some (mkBody cs e) ->
  (reads (fst (streamAIResponse (Resolved r) tok)) <= S (List.length cs))%nat.
Proof.
  intros Hok Hb. unfold streamAIResponse.
  rewrite (tryBlock_accepted r tok cs e Hok Hb), tryFinally_release.
  pose proof (whileLoop_reads tok cs e 0) as H.
  destruct (whileLoop tok 0 cs e) as [t []]; cbn [tryCatch emit fst snd] in *;
    rewrite ?reads_app; simpl; lia.
Qed.

Lemma reads_are_bounded_witness :
  (reads (fst (streamAIResponse
                 (Resolved (mkResponse 200 (js "OK")
                              (Some (mkBody [bytes scenario] Closed))))
                 never)) <= 2)%nat.
Proof.
  apply (reads_are_bounded never
           (mkResponse 200 (js "OK") (Some (mkBody [bytes scenario] Closed)))
           [bytes scenario] Closed); reflexivity.
Defined.

(* ------------------------------------------------------------------ *)
(** ** The reply of a request without streaming *)

(** X10. Whatever the service replies, the function never resolves with
    a falsy value. When it resolves, the service had accepted the request
    and the reply had parsed; the result is the content of the first
    choice's message when that is truthy, and the text "No response
    received" in every other case: where the reply holds no content, or an
    empty or otherwise falsy one. *)
Theorem non_streaming_result_is_truthy
    (net : network) (messages : list chat_message) (config : AIServerConfig)
    (result : value) :
  getNonStreamingResponse net messages config = inr result ->
  ToBoolean result = true
  /\ exists (r : response) (data content : value),
       net (nonStreamingRequest config messages) = Resolved r
       /\ ok r = true
       /\ responseJson r = inr data
       /\ messageContentOf data = inr content
       /\ result = (if ToBoolean content then content
                    else VString NO_RESPONSE).
Proof.
  unfold getNonStreamingResponse.
  destruct (net (nonStreamingRequest config messages)) as [e|r];
    [discriminate|].
  destruct (ok r) eqn:Hok; cbn [negb]; [|discriminate].
  destruct (responseJson r) as [failure|data] eqn:Hj; [discriminate|].
  destruct (messageContentOf data) as [x|c] eqn:Hc; [discriminate|].
  intros [= <-]. split.
  - destruct (ToBoolean c) eqn:E; [exact E | reflexivity].
  - exists r, data, c. repeat split; assumption.
Qed.

Lemma non_streaming_result_is_truthy_witness :
  exists (r : response) (data content : value),
    Resolved (mkResponse 200 (js "OK")
                (Some (mkBody [bytes "{}"] Closed))) = Resolved r
    /\ ok r = true
    /\ responseJson r = inr data
    /\ messageContentOf data = inr content
    /\ VString NO_RESPONSE
       = (if ToBoolean content then content else VString NO_RESPONSE).
Proof.
  apply (non_streaming_result_is_truthy
           (fun _ => Resolved (mkResponse 200 (js "OK")
                                 (Some (mkBody [bytes "{}"] Closed))))
           [] (mkConfig (js "http://localhost") None None)
           (VString NO_RESPONSE)).
  vm_compute. reflexivity.
Defined.

(** X11. When the service accepts the request and its body, however it
    is cut into chunks, is the reply of one choice whose message holds a
    text that is not empty, the function resolves with exactly that
    text. *)
Theorem non_streaming_reply_round_trip
    (net : network) (messages : list chat_message) (config : AIServerConfig)
    (r : response) (cs : list chunk) (text : jsstring) :
  net (nonStreamingRequest config messages) = Resolved r ->
  ok r = true ->
  body r = Some (mkBody cs Closed) ->
  decode (List.concat cs) = choiceText "message" text ->
  text <> [] ->
  getNonStreamingResponse net messages config = inr (VString text).
Proof.
  intros Hnet Hok Hb Hd Hne. unfold getNonStreamingResponse.
  rewrite Hnet, Hok. cbn [negb]. unfold responseJson. rewrite Hb.
  cbn [ending chunks]. rewrite Hd, parse_choiceText.
  change (messageContentOf (choiceValue "message" text))
    with (@inr parse_exn value (VString text)).
  cbn [ToBoolean]. destruct text; [congruence | reflexivity].
Qed.

Lemma non_streaming_reply_round_trip_witness :
  getNonStreamingResponse
    (fun _ => Resolved
                (mkResponse 200 (js "OK")
                   (Some (mkBody [firstn 17 helloReply; skipn 17 helloReply]
                            Closed))))
    [] (mkConfig (js "http://localhost") None None)
  = inr (VString (js "Hello")).
Proof.
  apply (non_streaming_reply_round_trip _ [] _
           (mkResponse 200 (js "OK")
              (Some (mkBody [firstn 17 helloReply; skipn 17 helloReply]
                       Closed)))
           [firstn 17 helloReply; skipn 17 helloReply]
           (js "Hello")).
  - reflexivity.
  - reflexivity.
  - reflexivity.
  - vm_compute. reflexivity.
  - discriminate.
Defined.

(* ------------------------------------------------------------------ *)
(** ** A turn of the participant *)

Lemma readReferences_spec files refs :
  readReferences files refs
  = (map AReadFile (uriPaths refs), readable files (uriPaths refs)).
Proof.
  induction refs as [|[p|] rest IH]; cbn [readReferences]; [reflexivity| |].
  - rewrite IH. unfold readable. cbn [uriPaths flat_map app map].
    destruct (files p); reflexivity.
  - exact IH.
Qed.

Lemma awaited_streamAIResponse fetched tok :
  awaited (snd (streamAIResponse fetched tok)) = Normal.
Proof.
  pose proof (streamAIResponse_no_throw fetched tok) as H.
  destruct (snd (streamAIResponse fetched tok)); [reflexivity..|discriminate].
Qed.

Lemma streamAIResponseCall_eq net messages config tok :
  streamAIResponseCall net messages config tok
  = (AFetch (streamingRequest config messages)
       :: map AStream
            (fst (streamAIResponse (net (streamingRequest config messages))
                    tok)),
     Normal).
Proof.
  unfold streamAIResponseCall. now rewrite awaited_streamAIResponse.
Qed.

(** What a turn does once an endpoint is configured: the progress
    notice, the reads of some files, one request, the handling of its
    response. *)
Lemma turn_shape net files settings request tok :
  truthyString (get settings "endpoint" []) = true ->
  exists paths messages,
    handlerBlock net files settings request tok
    = (AProgress (js "Connecting to AI server...")
         :: map AReadFile paths
         ++ AFetch (streamingRequest (getAIServerConfig settings) messages)
         :: map AStream
              (fst (streamAIResponse
                      (net (streamingRequest (getAIServerConfig settings)
                              messages)) tok)),
       Return).
Proof.
  intros He. unfold handlerBlock.
  change (endpoint (getAIServerConfig settings))
    with (get settings "endpoint" []).
  rewrite He. cbn [negb].
  destruct (commandIs request "summarize");
    [|destruct (commandIs request "translate")].
  - exists [], [SUMMARIZE_SYSTEM;
               userMessage (js "Please summarize the following: "
                            ++ prompt request)].
    unfold handleSummarizeCommand. rewrite streamAIResponseCall_eq.
    reflexivity.
  - exists [], [TRANSLATE_SYSTEM; userMessage (prompt request)].
    unfold handleTranslateCommand. rewrite streamAIResponseCall_eq.
    reflexivity.
  - exists (uriPaths (references request)),
           ([GENERIC_SYSTEM; userMessage (prompt request)]
            ++ readable files (uriPaths (references request))).
    unfold handleGenericChat. rewrite readReferences_spec.
    rewrite streamAIResponseCall_eq. reflexivity.
Qed.

Lemma handlerBlock_no_throw net files settings request tok :
  threw (snd (handlerBlock net files settings request tok)) = false.
Proof.
  destruct (truthyString (get settings "endpoint" [])) eqn:He.
  - destruct (turn_shape net files settings request tok He)
      as (paths & messages & ->). reflexivity.
  - unfold handlerBlock.
    change (endpoint (getAIServerConfig settings))
      with (get settings "endpoint" []).
    now rewrite He.
Qed.

Lemma participant_trace net files settings request tok :
  participantHandler net files settings request tok
  = (fst (handlerBlock net files settings request tok), command request).
Proof.
  pose proof (handlerBlock_no_throw net files settings request tok) as H.
  unfold participantHandler.
  destruct (snd (handlerBlock net files settings request tok));
    [reflexivity..|discriminate].
Qed.

(** X12. The participant's own handler of failures is never entered
    through the service, the network or the files: whatever they do, its
    block completes without throwing, and what the participant does is
    what its block does. A failure shows as the notice of
    [streamAIResponse], never as the participant's error notice. *)
Theorem participant_never_fails
    (net : network) (files : workspace) (settings : configuration)
    (request : ChatRequest) (tok : token) :
  threw (snd (handlerBlock net files settings request tok)) = false
  /\ participantHandler net files settings request tok
     = (fst (handlerBlock net files settings request tok), command request).
Proof.
  split; [apply handlerBlock_no_throw | apply participant_trace].
Qed.


(** X13. Without an endpoint in the settings (none, or an empty one) a
    turn does one thing: it tells the user to configure the endpoint. No
    request is sent, no file is read, no progress is shown. *)
Theorem unconfigured_turn_only_warns
    (net : network) (files : workspace) (settings : configuration)
    (request : ChatRequest) (tok : token) :
  get settings "endpoint" [] = [] ->
  participantHandler net files settings request tok
  = ([say CONFIGURE_NOTICE], command request).
Proof.
  intros He. rewrite participant_trace. unfold handlerBlock.
  change (endpoint (getAIServerConfig settings))
    with (get settings "endpoint" []).
  now rewrite He.
Qed.

Lemma unconfigured_turn_only_warns_witness :
  participantHandler (fun _ => Rejected (mkError (js "unreachable")))
    (fun _ => None) (fun _ => None)
    (mkChatRequest None (js "hello") [RefUri (js "/a.ts")]) never
  = ([say CONFIGURE_NOTICE], None).
Proof.
  apply (unconfigured_turn_only_warns
           (fun _ => Rejected (mkError (js "unreachable")))
           (fun _ => None) (fun _ => None)
           (mkChatRequest None (js "hello") [RefUri (js "/a.ts")]) never).
  reflexivity.
Defined.

Lemma fetches_shape p paths req evs :
  fetches (AProgress p :: map AReadFile paths ++ AFetch req :: map AStream evs)
  = [req].
Proof.
  cbn [fetches]. induction paths as [|q paths IH]; cbn [map app fetches].
  - f_equal. induction evs as [|e evs IHe]; [reflexivity | exact IHe].
  - exact IH.
Qed.

Lemma streamEvents_shape p paths req evs :
  streamEvents
    (AProgress p :: map AReadFile paths ++ AFetch req :: map AStream evs)
  = evs.
Proof.
  cbn [streamEvents]. induction paths as [|q paths IH];
    cbn [map app streamEvents]; [|exact IH].
  induction evs as [|e evs IHe]; cbn [map streamEvents]; [reflexivity|].
  now rewrite IHe.
Qed.

Lemma fileReads_shape p paths req evs :
  fileReads
    (AProgress p :: map AReadFile paths ++ AFetch req :: map AStream evs)
  = paths.
Proof.
  cbn [fileReads]. induction paths as [|q paths IH];
    cbn [map app fileReads]; [|now rewrite IH].
  induction evs as [|e evs IHe]; [reflexivity | exact IHe].
Qed.

Lemma said_shape p paths req evs :
  said (AProgress p :: map AReadFile paths ++ AFetch req :: map AStream evs)
  = increments evs.
Proof.
  cbn [said]. induction paths as [|q paths IH]; cbn [map app said];
    [|exact IH].
  induction evs as [|e evs IHe]; cbn [map said increments]; [reflexivity|].
  destruct e; cbn [said increments]; now rewrite ?IHe.
Qed.

(** X14. With an endpoint configured, a turn sends exactly one request,
    whatever the command: a POST to the configured endpoint with the
    content type, and with the key as bearer token exactly when a key
    that is not empty is configured. The progress notice and every file
    read come before the request, every event of the response after. *)
Theorem one_request_per_turn
    (net : network) (files : workspace) (settings : configuration)
    (request : ChatRequest) (tok : token) :
  truthyString (get settings "endpoint" []) = true ->
  exists paths req,
    fst (participantHandler net files settings request tok)
    = AProgress (js "Connecting to AI server...")
        :: map AReadFile paths
        ++ AFetch req
        :: map AStream (fst (streamAIResponse (net req) tok))
    /\ fetches (fst (participantHandler net files settings request tok))
       = [req]
    /\ url req = get settings "endpoint" []
    /\ method req = js "POST"
    /\ headers req
       = (js "Content-Type", js "application/json")
         :: (if truthyString (get settings "apiKey" [])
             then [(js "Authorization",
                    js "Bearer " ++ get settings "apiKey" [])]
             else []).
Proof.
  intros He. rewrite participant_trace. cbn [fst].
  destruct (turn_shape net files settings request tok He)
    as (paths & messages & ->).
  exists paths, (streamingRequest (getAIServerConfig settings) messages).
  cbn [fst]. split; [reflexivity|]. split; [apply fetches_shape|].
  repeat split.
Qed.

Lemma one_request_per_turn_witness :
  exists paths req,
    fst (participantHandler (fun _ => Rejected (mkError (js "offline")))
           (fun _ => None)
           (fun key => if String.eqb key "endpoint"
                       then Some (js "http://localhost:8080/v1/chat")
                       else None)
           (mkChatRequest None (js "hello") [RefUri (js "/a.ts")]) never)
    = AProgress (js "Connecting to AI server...")
        :: map AReadFile paths
        ++ AFetch req
        :: map AStream
             (fst (streamAIResponse
                     ((fun _ => Rejected (mkError (js "offline"))) req)
                     never))
    /\ url req = js "http://localhost:8080/v1/chat".
Proof.
  destruct (one_request_per_turn
              (fun _ => Rejected (mkError (js "offline")))
              (fun _ => None)
              (fun key => if String.eqb key "endpoint"
                          then Some (js "http://localhost:8080/v1/chat")
                          else None)
              (mkChatRequest None (js "hello") [RefUri (js "/a.ts")])
              never eq_refl) as (paths & req & H1 & _ & H2 & _).
  exists paths, req. split; [exact H1 | exact H2].
Defined.

Lemma commandIs_exclusive request :
  commandIs request "translate" = true ->
  commandIs request "summarize" = false.
Proof.
  unfold commandIs. destruct (command request) as [c|]; [|discriminate].
  intros H. apply jsstring_eqb_eq in H. now subst c.
Qed.

Lemma handlerBlock_configured net files settings request tok :
  truthyString (get settings "endpoint" []) = true ->
  handlerBlock net files settings request tok
  = let config := getAIServerConfig settings in
    let handled :=
      if commandIs request "summarize"
      then handleSummarizeCommand net request config tok
      else if commandIs request "translate"
      then handleTranslateCommand net request config tok
      else handleGenericChat net files request config tok in
    (AProgress (js "Connecting to AI server...") :: fst handled,
     match snd handled with Normal => Return | c => c end).
Proof.
  intros He. unfold handlerBlock.
  change (endpoint (getAIServerConfig settings))
    with (get settings "endpoint" []).
  now rewrite He.
Qed.

(** X15. For the command [summarize] the one request carries two
    messages: the system message of the summariser and a user message
    that is the prompt behind the words "Please summarize the following: ";
    its body parses back to exactly these. No file is read, whatever
    the references of the request. *)
Theorem summarize_turn
    (net : network) (files : workspace) (settings : configuration)
    (request : ChatRequest) (tok : token) :
  truthyString (get settings "endpoint" []) = true ->
  commandIs request "summarize" = true ->
  let config := getAIServerConfig settings in
  let messages :=
    [SUMMARIZE_SYSTEM;
     userMessage (js "Please summarize the following: " ++ prompt request)] in
  let req := streamingRequest config messages in
  fst (participantHandler net files settings request tok)
  = AProgress (js "Connecting to AI server...")
      :: AFetch req :: map AStream (fst (streamAIResponse (net req) tok))
  /\ fileReads (fst (participantHandler net files settings request tok)) = []
  /\ JSON_parse (payload req) = Some (bodyValue config messages true).
Proof.
  intros He Hc config messages req.
  assert (fst (participantHandler net files settings request tok)
          = AProgress (js "Connecting to AI server...")
              :: AFetch req
              :: map AStream (fst (streamAIResponse (net req) tok))) as Ht.
  { rewrite participant_trace, (handlerBlock_configured _ _ _ _ _ He), Hc.
    unfold handleSummarizeCommand. rewrite streamAIResponseCall_eq.
    reflexivity. }
  split; [exact Ht|]. split.
  - rewrite Ht. exact (fileReads_shape _ [] req _).
  - exact (parse_body config messages true).
Qed.

Lemma summarize_turn_witness :
  fileReads
    (fst (participantHandler (fun _ => Rejected (mkError (js "offline")))
            (fun _ => Some (bytes "x"))
            (fun key => if String.eqb key "endpoint"
                        then Some (js "http://localhost:8080/v1/chat")
                        else None)
            (mkChatRequest (Some (js "summarize")) (js "hello")
               [RefUri (js "/a.ts")]) never))
  = [].
Proof.
  apply (summarize_turn
           (fun _ => Rejected (mkError (js "offline")))
           (fun _ => Some (bytes "x"))
           (fun key => if String.eqb key "endpoint"
                       then Some (js "http://localhost:8080/v1/chat")
                       else None)
           (mkChatRequest (Some (js "summarize")) (js "hello")
              [RefUri (js "/a.ts")]) never); reflexivity.
Defined.

(** X16. For the command [translate] the one request carries the system
    message of the translator and the prompt, as it is, as the user
    message; its body parses back to exactly these. No file is read. *)
Theorem translate_turn
    (net : network) (files : workspace) (settings : configuration)
    (request : ChatRequest) (tok : token) :
  truthyString (get settings "endpoint" []) = true ->
  commandIs request "translate" = true ->
  let config := getAIServerConfig settings in
  let messages := [TRANSLATE_SYSTEM; userMessage (prompt request)] in
  let req := streamingRequest config messages in
  fst (participantHandler net files settings request tok)
  = AProgress (js "Connecting to AI server...")
      :: AFetch req :: map AStream (fst (streamAIResponse (net req) tok))
  /\ fileReads (fst (participantHandler net files settings request tok)) = []
  /\ JSON_parse (payload req) = Some (bodyValue config messages true).
Proof.
  intros He Hc config messages req.
  assert (fst (participantHandler net files settings request tok)
          = AProgress (js "Connecting to AI server...")
              :: AFetch req
              :: map AStream (fst (streamAIResponse (net req) tok))) as Ht.
  { rewrite participant_trace, (handlerBlock_configured _ _ _ _ _ He).
    rewrite (commandIs_exclusive request Hc), Hc.
    unfold handleTranslateCommand. rewrite streamAIResponseCall_eq.
    reflexivity. }
  split; [exact Ht|]. split.
  - rewrite Ht. exact (fileReads_shape _ [] req _).
  - exact (parse_body config messages true).
Qed.

Lemma translate_turn_witness :
  fileReads
    (fst (participantHandler (fun _ => Rejected (mkError (js "offline")))
            (fun _ => Some (bytes "x"))
            (fun key => if String.eqb key "endpoint"
                        then Some (js "http://localhost:8080/v1/chat")
                        else None)
            (mkChatRequest (Some (js "translate")) (js "hello")
               [RefUri (js "/a.ts")]) never))
  = [].
Proof.
  apply (translate_turn
           (fun _ => Rejected (mkError (js "offline")))
           (fun _ => Some (bytes "x"))
           (fun key => if String.eqb key "endpoint"
                       then Some (js "http://localhost:8080/v1/chat")
                       else None)
           (mkChatRequest (Some (js "translate")) (js "hello")
              [RefUri (js "/a.ts")]) never); reflexivity.
Defined.

(** X17. For any other command, or none, every reference that is a Uri
    is read once, in the order of the references and before the request;
    other references are not read. The request carries the system
    message, the prompt as the user message, and one user message for
    each file that could be read, in that order; files that cannot be
    read are left out without a word. Its body parses back to exactly
    these messages. *)
Theorem generic_turn
    (net : network) (files : workspace) (settings : configuration)
    (request : ChatRequest) (tok : token) :
  truthyString (get settings "endpoint" []) = true ->
  commandIs request "summarize" = false ->
  commandIs request "translate" = false ->
  let config := getAIServerConfig settings in
  let paths := uriPaths (references request) in
  let messages :=
    [GENERIC_SYSTEM; userMessage (prompt request)] ++ readable files paths in
  let req := streamingRequest config messages in
  fst (participantHandler net files settings request tok)
  = AProgress (js "Connecting to AI server...")
      :: map AReadFile paths
      ++ AFetch req :: map AStream (fst (streamAIResponse (net req) tok))
  /\ fileReads (fst (participantHandler net files settings request tok))
     = paths
  /\ JSON_parse (payload req) = Some (bodyValue config messages true).
Proof.
  intros He Hs Ht config paths messages req.
  assert (fst (participantHandler net files settings request tok)
          = AProgress (js "Connecting to AI server...")
              :: map AReadFile paths
              ++ AFetch req
              :: map AStream (fst (streamAIResponse (net req) tok))) as Hf.
  { rewrite participant_trace, (handlerBlock_configured _ _ _ _ _ He).
    rewrite Hs, Ht. unfold handleGenericChat.
    rewrite readReferences_spec, streamAIResponseCall_eq. reflexivity. }
  split; [exact Hf|]. split.
  - rewrite Hf. apply fileReads_shape.
  - exact (parse_body config messages true).
Qed.

Lemma generic_turn_witness :
  fileReads
    (fst (participantHandler (fun _ => Rejected (mkError (js "offline")))
            (fun p => if jsstring_eqb p (js "/a.ts")
                      then Some (bytes "let x = 1") else None)
            (fun key => if String.eqb key "endpoint"
                        then Some (js "http://localhost:8080/v1/chat")
                        else None)
            (mkChatRequest (Some (js "explain")) (js "hello")
               [RefUri (js "/a.ts"); RefOther; RefUri (js "/gone.ts")])
            never))
  = [js "/a.ts"; js "/gone.ts"].
Proof.
  apply (generic_turn
           (fun _ => Rejected (mkError (js "offline")))
           (fun p => if jsstring_eqb p (js "/a.ts")
                     then Some (bytes "let x = 1") else None)
           (fun key => if String.eqb key "endpoint"
                       then Some (js "http://localhost:8080/v1/chat")
                       else None)
           (mkChatRequest (Some (js "explain")) (js "hello")
              [RefUri (js "/a.ts"); RefOther; RefUri (js "/gone.ts")])
           never); reflexivity.
Defined.

(** X18. When the request cannot be sent, or the connection fails
    before a response, the sink receives one text and no other: the
    notice of [streamAIResponse] with the message of the failure. *)
Theorem failed_turn_is_reported_once
    (net : network) (files : workspace) (settings : configuration)
    (request : ChatRequest) (tok : token) (e : error) :
  truthyString (get settings "endpoint" []) = true ->
  (forall req, net req = Rejected e) ->
  said (fst (participantHandler net files settings request tok))
  = [failureNotice e].
Proof.
  intros He Hnet. rewrite participant_trace. cbn [fst].
  destruct (turn_shape net files settings request tok He)
    as (paths & messages & ->).
  cbn [fst]. rewrite said_shape, Hnet. reflexivity.
Qed.

Lemma failed_turn_is_reported_once_witness :
  said
    (fst (participantHandler (fun _ => Rejected (mkError (js "offline")))
            (fun _ => None)
            (fun key => if String.eqb key "endpoint"
                        then Some (js "http://localhost:8080/v1/chat")
                        else None)
            (mkChatRequest None (js "hello") []) never))
  = [VString (js "Failed to get response from AI service: offline")].
Proof.
  apply (failed_turn_is_reported_once
           (fun _ => Rejected (mkError (js "offline")))
           (fun _ => None)
           (fun key => if String.eqb key "endpoint"
                       then Some (js "http://localhost:8080/v1/chat")
                       else None)
           (mkChatRequest None (js "hello") []) never
           (mkError (js "offline"))).
  - reflexivity.
  - intros req. reflexivity.
Defined.

(** X19. Cancellation is not looked at before the request: a turn whose
    token is cancelled from the start still reads the referenced files
    and sends its request; when the service accepts it, the body is not
    read, the reader is released, and nothing reaches the sink. *)
Theorem cancelled_turn_still_sends
    (net : network) (files : workspace) (settings : configuration)
    (request : ChatRequest) (tok : token) :
  truthyString (get settings "endpoint" []) = true ->
  tok 0%nat = true ->
  (forall req, readerTaken (net req) = true) ->
  exists req,
    fetches (fst (participantHandler net files settings request tok)) = [req]
    /\ streamEvents (fst (participantHandler net files settings request tok))
       = [EvCheck true; EvReleaseLock]
    /\ said (fst (participantHandler net files settings request tok)) = [].
Proof.
  intros He H0 Hnet. rewrite participant_trace. cbn [fst].
  destruct (turn_shape net files settings request tok He)
    as (paths & messages & ->).
  set (req := streamingRequest (getAIServerConfig settings) messages).
  exists req. cbn [fst].
  rewrite fetches_shape, streamEvents_shape, said_shape.
  assert (fst (streamAIResponse (net req) tok) = [EvCheck true; EvReleaseLock])
    as ->.
  { specialize (Hnet req). unfold readerTaken in Hnet.
    destruct (net req) as [err|r]; [discriminate|].
    apply andb_true_iff in Hnet. destruct Hnet as [Hok Hb].
    destruct (body r) as [[cs en]|] eqn:Eb; [|discriminate].
    unfold streamAIResponse.
    rewrite (tryBlock_accepted r tok cs en Hok Eb).
    now rewrite whileLoop_cancelled. }
  repeat split.
Qed.

Lemma cancelled_turn_still_sends_witness :
  exists req,
    fetches
      (fst (participantHandler
              (fun _ => okResponse [bytes scenario] Closed)
              (fun _ => None)
              (fun key => if String.eqb key "endpoint"
                          then Some (js "http://localhost:8080/v1/chat")
                          else None)
              (mkChatRequest None (js "hello") []) (fun _ => true)))
    = [req].
Proof.
  destruct (cancelled_turn_still_sends
              (fun _ => okResponse [bytes scenario] Closed)
              (fun _ => None)
              (fun key => if String.eqb key "endpoint"
                          then Some (js "http://localhost:8080/v1/chat")
                          else None)
              (mkChatRequest None (js "hello") []) (fun _ => true)
              eq_refl eq_refl (fun _ => eq_refl)) as (req & H & _).
  exists req. exact H.
Defined.

(** X20. Every request of a turn names a model, the configured one or
    [gpt-3.5-turbo] when none is configured, asks for a stream and
    caps the reply at 1000 tokens: these are what the service reads in
    the body. *)
Theorem request_names_model
    (net : network) (files : workspace) (settings : configuration)
    (request : ChatRequest) (tok : token) :
  truthyString (get settings "endpoint" []) = true ->
  exists req parsed,
    fetches (fst (participantHandler net files settings request tok)) = [req]
    /\ JSON_parse (payload req) = Some parsed
    /\ getMember "model" parsed
       = VString (get settings "model" (js "gpt-3.5-turbo"))
    /\ getMember "stream" parsed = VBool true
    /\ getMember "max_tokens" parsed = VNumber (mkNumber false 1000 0).
Proof.
  intros He. rewrite participant_trace. cbn [fst].
  destruct (turn_shape net files settings request tok He)
    as (paths & messages & ->).
  exists (streamingRequest (getAIServerConfig settings) messages),
         (bodyValue (getAIServerConfig settings) messages true).
  cbn [fst]. rewrite fetches_shape.
  split; [reflexivity|].
  split; [exact (parse_body (getAIServerConfig settings) messages true)|].
  repeat split.
Qed.

Lemma request_names_model_witness :
  exists req parsed,
    fetches
      (fst (participantHandler (fun _ => Rejected (mkError (js "offline")))
              (fun _ => None)
              (fun key => if String.eqb key "endpoint"
                          then Some (js "http://localhost:8080/v1/chat")
                          else None)
              (mkChatRequest None (js "hello") []) never))
    = [req]
    /\ JSON_parse (payload req) = Some parsed
    /\ getMember "model" parsed = VString (js "gpt-3.5-turbo").
Proof.
  destruct (request_names_model
              (fun _ => Rejected (mkError (js "offline")))
              (fun _ => None)
              (fun key => if String.eqb key "endpoint"
                          then Some (js "http://localhost:8080/v1/chat")
                          else None)
              (mkChatRequest None (js "hello") []) never eq_refl)
    as (req & parsed & H1 & H2 & H3 & _).
  exists req, parsed. repeat split; assumption.
Defined.

(* ------------------------------------------------------------------ *)
(** ** Decoding and splitting *)

Lemma utf8_run_ascii_list l :
  (forall b, In b l -> b <= 0x7F) -> utf8_run Utf8Start l = l.
Proof.
  induction l as [|b l IH]; intros H; [reflexivity|].
  cbn [utf8_run utf8_step]. unfold utf8_lead.
  rewrite (proj2 (N.leb_le _ _) (H b (or_introl eq_refl))).
  cbn [app]. f_equal. apply IH. intros x Hx. apply H. now right.
Qed.

Lemma utf16_units_bmp l :
  (forall c, In c l -> c < 0x10000) -> flat_map utf16_units l = l.
Proof.
  induction l as [|c l IH]; intros H; [reflexivity|].
  cbn [flat_map]. unfold utf16_units at 1.
  rewrite (proj2 (N.ltb_lt _ _) (H c (or_introl eq_refl))).
  cbn [app]. f_equal. apply IH. intros x Hx. apply H. now right.
Qed.

(** X21. A chunk of ASCII bytes decodes to the same values as code
    units, one for one: nothing is replaced, removed or merged. *)
Theorem decode_ascii (value : chunk) :
  (forall b, In b value -> Byte.to_N b <= 0x7F) ->
  decode value = map Byte.to_N value.
Proof.
  intros H. unfold decode, codePoints.
  assert (forall c, In c (map Byte.to_N value) -> c <= 0x7F) as Hn.
  { intros c Hc. apply in_map_iff in Hc. destruct Hc as (b & <- & Hb).
    now apply H. }
  rewrite utf8_run_ascii_list by exact Hn.
  assert (stripBOM (map Byte.to_N value) = map Byte.to_N value) as ->.
  { destruct (map Byte.to_N value) as [|c l] eqn:E; [reflexivity|].
    cbn [stripBOM]. specialize (Hn c (or_introl eq_refl)).
    destruct (N.eqb_spec c BOM) as [->|]; [unfold BOM in Hn; lia|].
    reflexivity. }
  apply utf16_units_bmp. intros c Hc. specialize (Hn c Hc). lia.
Qed.

Lemma decode_ascii_witness :
  decode (bytes "data: [DONE]") = map Byte.to_N (bytes "data: [DONE]").
Proof.
  apply (decode_ascii (bytes "data: [DONE]")).
  intros b Hb. vm_compute in Hb.
  repeat (destruct Hb as [<-|Hb]; [vm_compute; discriminate|]).
  destruct Hb.
Defined.

Lemma split_segments_no_sep sep s :
  forall seg, In seg (split sep s) -> ~ In sep seg.
Proof.
  induction s as [|c s IH]; cbn [split]; intros seg.
  - intros [<-|[]] [].
  - destruct (N.eqb_spec c sep) as [->|Hne].
    + intros [<-|H]; [intros [] | now apply IH].
    + destruct (split_cons sep s) as (seg0 & segs & E). rewrite E in *.
      intros [<-|H].
      * intros [Hc|Hin]; [congruence|]. apply (IH seg0); [now left|exact Hin].
      * apply IH. now right.
Qed.

Lemma split_join sep s : joinWith [sep] (split sep s) = s.
Proof.
  induction s as [|c s IH]; cbn [split]; [reflexivity|].
  destruct (split_cons sep s) as (seg0 & segs & E). rewrite E in *.
  destruct (N.eqb_spec c sep) as [->|Hne].
  - change (joinWith [sep] ([] :: seg0 :: segs))
      with (sep :: joinWith [sep] (seg0 :: segs)).
    now rewrite IH.
  - rewrite <- IH. destruct segs as [|seg1 segs]; reflexivity.
Qed.

(** X22. Splitting a text at its line feeds loses nothing (joined with
    line feeds again, the segments give the text back), and every line
    handed to the loop is free of line feeds and not blank. *)
Theorem lines_are_clean (text : jsstring) :
  joinWith [LF] (split LF text) = text
  /\ forall line, In line (linesOf text) ->
                  ~ In LF line /\ trim line <> [].
Proof.
  split; [apply split_join|].
  intros line H. unfold linesOf in H. apply filter_In in H.
  destruct H as [Hin Ht]. split.
  - now apply (split_segments_no_sep LF text).
  - intros E. rewrite E in Ht. discriminate.
Qed.

Lemma lines_are_clean_witness :
  ~ In LF (js "data: x") /\ trim (js "data: x") <> [].
Proof.
  apply (proj2 (lines_are_clean (js "data: x" ++ [LF; LF] ++ js ": ping"))).
  vm_compute. now left.
Defined.

(* ------------------------------------------------------------------ *)
(** ** The configure command *)

(** X23. The configure command never stores an empty value, and stores
    a key only after it stored an endpoint in the same run: wherever the
    key is stored, the endpoint was stored and the key asked for right
    before it, and the key was not stored earlier. When the endpoint box
    is dismissed or left empty nothing more is asked, stored or shown. *)
Theorem configure_stores_entered_values
    (endpointAnswer apiKeyAnswer : option jsstring) :
  (entered endpointAnswer = None ->
   configureCommand endpointAnswer apiKeyAnswer = [AskEndpoint])
  /\ (forall key v,
        In (Update key v) (configureCommand endpointAnswer apiKeyAnswer) ->
        v <> [])
  /\ (forall pre v post,
        configureCommand endpointAnswer apiKeyAnswer
        = pre ++ Update "apiKey" v :: post ->
        exists e asked,
          pre = asked ++ [Update "endpoint" e; AskApiKey]
          /\ ~ In (Update "apiKey" v) asked).
Proof.
  assert (forall a t, entered a = Some t -> t <> []) as Hne.
  { intros [a|] t; cbn [entered]; [|discriminate].
    destruct a; cbn [truthyString]; [discriminate|].
    intros [= <-]. discriminate. }
  unfold configureCommand. split; [now intros ->|]. split.
  - intros key v.
    destruct (entered endpointAnswer) as [e|] eqn:Ee;
      [|intros [H|[]]; discriminate].
    destruct (entered apiKeyAnswer) as [k|] eqn:Ek; cbn [In];
      intros H;
      repeat match goal with
             | H : _ \/ _ |- _ => destruct H as [H|H]
             | H : False |- _ => destruct H
             | H : _ = Update _ _ |- _ => try discriminate H; injection H as <- <-
             end; eauto.
  - intros pre v post H.
    destruct (entered endpointAnswer) as [e|];
      [destruct (entered apiKeyAnswer) as [k|]|].
    all: repeat (destruct pre as [|? pre]; cbn [app] in H;
                 [try discriminate H | injection H as <- H]).
    all: try (destruct pre; discriminate H).
    exists e, [AskEndpoint]. split; [reflexivity|].
    intros [Hin|[]]. discriminate.
Qed.

Lemma configure_stores_entered_values_witness :
  exists e asked,
    [AskEndpoint; Update "endpoint" (js "http://localhost:8080"); AskApiKey]
    = asked ++ [Update "endpoint" e; AskApiKey]
    /\ ~ In (Update "apiKey" (js "secret")) asked.
Proof.
  apply (proj2 (proj2
    (configure_stores_entered_values
       (Some (js "http://localhost:8080")) (Some (js "secret"))))
    [AskEndpoint; Update "endpoint" (js "http://localhost:8080"); AskApiKey]
    (js "secret") [ShowSaved]).
  reflexivity.
Defined.
